(** * simplewebapp: a schema-driven CRUD server and its browser modules

    A shallow embedding of the server (server.js: schema introspection,
    dynamic SQL and the generic /api routes), of the validation module
    (validation.mjs) and of the data-access module (restcallsfordbdata.mjs),
    with the properties their specification states.

    Conventions.  A JavaScript string is a [string]: a sequence of code
    units, here the code units 0..255 (Latin-1).  A JavaScript object used as
    a record of columns (a row, a request body, a response body) is a
    [gmap string value].  Integers are [Z]. *)

From Stdlib Require Import ZArith NArith Ascii Lia Bool.
From Stdlib Require String.
From stdpp Require Import base decidable option list gmap strings sorting pretty.

(* ===================================================================== *)
(** ** JavaScript strings *)
(* ===================================================================== *)

Module JsString.

(** The code unit 34, the double quote. *)
Definition dquote : ascii := ascii_of_N 34.

(** A one-character string. *)
Definition chr (c : ascii) : string := String c EmptyString.

Fixpoint to_list (s : string) : list ascii :=
  match s with
  | EmptyString => []
  | String c r => c :: to_list r
  end.

Fixpoint of_list (l : list ascii) : string :=
  match l with
  | [] => EmptyString
  | c :: r => String c (of_list r)
  end.

(** [s.startsWith(p)]. *)
Fixpoint startsWith (s p : string) {struct p} : bool :=
  match p, s with
  | EmptyString, _ => true
  | String _ _, EmptyString => false
  | String a p', String b s' => if Ascii.eqb a b then startsWith s' p' else false
  end.

(** [s.includes(search)]: [search] occurs in [s] at some position. *)
Fixpoint includes (s search : string) : bool :=
  startsWith s search ||
  match s with
  | EmptyString => false
  | String _ r => includes r search
  end.

(** [s.replace(/c/g, rep)] for a pattern that is the single literal
    character [c]: every occurrence of [c] is replaced by [rep]. *)
Fixpoint replaceAllChar (c : ascii) (rep : string) (s : string) : string :=
  match s with
  | EmptyString => EmptyString
  | String a r =>
      if Ascii.eqb a c then rep +:+ replaceAllChar c rep r
      else String a (replaceAllChar c rep r)
  end.

(** [parts.join(sep)]. *)
Fixpoint join (sep : string) (parts : list string) : string :=
  match parts with
  | [] => EmptyString
  | [x] => x
  | x :: rest => x +:+ sep +:+ join sep rest
  end.

(** [toLowerCase] on the code units 0..255: A-Z, and the Latin-1 capitals
    192..222 except the multiplication sign 215, move up by 32. *)
Definition lower_char (c : ascii) : ascii :=
  let n := N_of_ascii c in
  if ((65 <=? n) && (n <=? 90) ||
      (192 <=? n) && (n <=? 222) && negb (n =? 215))%N
  then ascii_of_N (n + 32) else c.

Fixpoint toLowerCase (s : string) : string :=
  match s with
  | EmptyString => EmptyString
  | String c r => String (lower_char c) (toLowerCase r)
  end.

(** White space and line terminators among the code units 0..255: TAB, LF,
    VT, FF, CR, SPACE and NBSP. *)
Definition is_white (c : ascii) : bool :=
  let n := N_of_ascii c in
  ((9 <=? n) && (n <=? 13) || (n =? 32) || (n =? 160))%N.

Fixpoint trimStart (s : string) : string :=
  match s with
  | EmptyString => EmptyString
  | String c r => if is_white c then trimStart r else s
  end.

(** The string without its trailing white space. *)
Fixpoint trimEnd (s : string) : string :=
  match s with
  | EmptyString => EmptyString
  | String c r =>
      match trimEnd r with
      | EmptyString => if is_white c then EmptyString else chr c
      | r' => String c r'
      end
  end.

(** [s.trim()]. *)
Definition trim (s : string) : string := trimEnd (trimStart s).

(** [s] occurs inside [t]: the mathematical reading of "t contains s". *)
Definition Substring (s t : string) : Prop :=
  exists pre post : string, t = pre +:+ s +:+ post.

End JsString.

(* ===================================================================== *)
(** ** Values *)
(* ===================================================================== *)

(** The scalar values a cell of a row, a field of a request body or a bound
    statement parameter holds: null, an integer, a text. *)
Inductive value :=
| VNull
| VInt (n : Z)
| VText (s : string).

#[global] Instance value_eq_dec : EqDecision value.
Proof. solve_decision. Defined.

#[global] Instance value_inhabited : Inhabited value := populate VNull.

(** A row of a table, a request body, a response object: fields by name. *)
Abbreviation row := (gmap string value).

(** The decimal form of an integer, as a template literal prints it. *)
Definition decimal (n : Z) : string := pretty n.

(* ===================================================================== *)
(** ** Regular expressions *)
(* ===================================================================== *)

(** The patterns of the code are regular: character classes, sequence and
    repetition, anchored at both ends.  [test] on such a pattern says whether
    the whole string is in the language of the pattern; it is computed here
    with derivatives. *)

Module JsRegExp.

Inductive regex :=
| Never
| Empty
| Class (p : ascii -> bool)
| Seq (r1 r2 : regex)
| Alt (r1 r2 : regex)
| Star (r : regex).

(** [r+]. *)
Definition Plus (r : regex) : regex := Seq r (Star r).

(** The pattern matches the empty string. *)
Fixpoint nullable (r : regex) : bool :=
  match r with
  | Never => false
  | Empty => true
  | Class _ => false
  | Seq r1 r2 => nullable r1 && nullable r2
  | Alt r1 r2 => nullable r1 || nullable r2
  | Star _ => true
  end.

(** What is left of the pattern after the character [c]. *)
Fixpoint derive (c : ascii) (r : regex) : regex :=
  match r with
  | Never => Never
  | Empty => Never
  | Class p => if p c then Empty else Never
  | Seq r1 r2 =>
      if nullable r1 then Alt (Seq (derive c r1) r2) (derive c r2)
      else Seq (derive c r1) r2
  | Alt r1 r2 => Alt (derive c r1) (derive c r2)
  | Star r1 => Seq (derive c r1) (Star r1)
  end.

(** [/^r$/.test(s)]. *)
Fixpoint test (r : regex) (s : string) : bool :=
  match s with
  | EmptyString => nullable r
  | String c s' => test (derive c r) s'
  end.

End JsRegExp.

(* ===================================================================== *)
(** ** validation.mjs *)
(* ===================================================================== *)

Module Validation.
Import JsString.
Local Open Scope Z_scope.

(** [class ValidationError extends Error]: a message and the field. *)
Record ValidationError := mkValidationError {
  message : string;
  field : string
}.

(** A rule returns a value or throws a [ValidationError]. *)
Inductive outcome (A : Type) :=
| Return (a : A)
| Throw (e : ValidationError).
Arguments Return {A} a.
Arguments Throw {A} e.

(** What [parseInt] returns: NaN, an integer-valued number, or an infinity
    (when the integer read is beyond the range of a double). *)
Inductive jsnumber :=
| NaN
| Finite (n : Z)
| Infinite.

(** The value of a character as a digit, 0..35. *)
Definition digit_value (c : ascii) : option Z :=
  let n := Z.of_N (N_of_ascii c) in
  if (48 <=? n) && (n <=? 57) then Some (n - 48)
  else if (97 <=? n) && (n <=? 122) then Some (n - 87)
  else if (65 <=? n) && (n <=? 90) then Some (n - 55)
  else None.

Definition radix_digit (R : Z) (c : ascii) : option Z :=
  match digit_value c with
  | Some d => if d <? R then Some d else None
  | None => None
  end.

(** The integer written by the longest prefix of [s] made of radix-[R]
    digits, continuing the value [acc] read so far ([None]: no digit yet). *)
Fixpoint read_digits (R : Z) (s : string) (acc : option Z) : option Z :=
  match s with
  | EmptyString => acc
  | String c r =>
      match radix_digit R c with
      | Some d => read_digits R r (Some (from_option id 0 acc * R + d))
      | None => acc
      end
  end.

(** An integer converts to a finite double when, rounded to nearest, it stays
    below 2^1024. *)
Definition fits_double (n : Z) : bool := Z.abs n <? 2 ^ 1024 - 2 ^ 970.

(** [parseInt(string)] with no radix: leading white space is skipped, a sign
    is read, a [0x] or [0X] prefix selects radix 16, and the longest run of
    digits is converted; anything after it is ignored. *)
Definition parseInt (input : string) : jsnumber :=
  let S0 := trimStart input in
  let '(sign, S1) :=
    match S0 with
    | String "-" r => (-1, r)
    | String "+" r => (1, r)
    | _ => (1, S0)
    end in
  let '(R, S2) :=
    match S1 with
    | String "0" (String "x" r) => (16, r)
    | String "0" (String "X" r) => (16, r)
    | _ => (10, S1)
    end in
  match read_digits R S2 None with
  | None => NaN
  | Some mathInt => if fits_double mathInt then Finite (sign * mathInt) else Infinite
  end.

Definition isNaN (x : jsnumber) : bool :=
  match x with NaN => true | _ => false end.

(** [Number.isInteger]. *)
Definition isInteger (x : jsnumber) : bool :=
  match x with Finite _ => true | _ => false end.

(** A string is truthy when it is not empty. *)
Definition truthy (s : string) : bool :=
  match s with EmptyString => false | _ => true end.

Definition nonblank (s : string) : bool :=
  truthy s && negb (String.eqb (trim s) EmptyString).

(** [validateInteger(value, fieldName)], for a [value] that is a string (what
    a form input holds). *)
Definition validateInteger (value fieldName : string) : outcome bool :=
  if nonblank value then
    let intValue := parseInt value in
    if isNaN intValue || negb (isInteger intValue) then
      Throw (mkValidationError (fieldName +:+ " must be a valid integer") fieldName)
    else Return true
  else Return true.

(** [inferFieldType(fieldName)]. *)
Definition inferFieldType (fieldName : string) : string :=
  let name := toLowerCase fieldName in
  if includes name "email" || includes name "mail" then "email"
  else if includes name "id" || includes name "count" || includes name "number" ||
          includes name "price" || includes name "amount" || includes name "quantity"
  then "number"
  else "text".

(** Rules run one after the other; the first that throws ends the run. *)
Definition outcome_bind {A B} (k : A -> outcome B) (m : outcome A) : outcome B :=
  match m with
  | Return a => k a
  | Throw e => Throw e
  end.
#[global] Instance outcome_mbind : MBind outcome := @outcome_bind.

(** [validateNotEmpty(value, fieldName)]. *)
Definition validateNotEmpty (value fieldName : string) : outcome bool :=
  if negb (truthy value) || String.eqb (trim value) EmptyString then
    Throw (mkValidationError (fieldName +:+ " cannot be empty") fieldName)
  else Return true.

(** [[^\s@]]: any character but white space and the at sign. *)
Definition plain_char (c : ascii) : bool :=
  negb (is_white c || Ascii.eqb c "@").

(** [/^[^\s@]+@[^\s@]+\.[^\s@]+$/]. *)
Definition emailRegex : JsRegExp.regex :=
  JsRegExp.Seq (JsRegExp.Plus (JsRegExp.Class plain_char))
    (JsRegExp.Seq (JsRegExp.Class (Ascii.eqb "@"))
       (JsRegExp.Seq (JsRegExp.Plus (JsRegExp.Class plain_char))
          (JsRegExp.Seq (JsRegExp.Class (Ascii.eqb "."))
             (JsRegExp.Plus (JsRegExp.Class plain_char))))).

(** [validateEmail(value, fieldName)]. *)
Definition validateEmail (value fieldName : string) : outcome bool :=
  if truthy value && negb (String.eqb (trim value) EmptyString) then
    if negb (JsRegExp.test emailRegex (trim value)) then
      Throw (mkValidationError (fieldName +:+ " must be a valid email address") fieldName)
    else Return true
  else Return true.

(** What [parseFloat] returns: NaN, or the number written by a decimal
    literal; the literal stands for the number. *)
Inductive jsfloat :=
| FloatNaN
| FloatLiteral (text : string).

Definition decimal_digit (c : ascii) : bool :=
  let n := N_of_ascii c in ((48 <=? n) && (n <=? 57))%N.

(** The decimal digits at the front of [s], and what follows them. *)
Fixpoint take_digits (s : string) : string * string :=
  match s with
  | EmptyString => (EmptyString, EmptyString)
  | String c r =>
      if decimal_digit c then
        let '(ds, rest) := take_digits r in (String c ds, rest)
      else (EmptyString, s)
  end.

Definition is_empty (s : string) : bool :=
  match s with EmptyString => true | _ => false end.

(** The sign at the front of [s], if any, and what follows it. *)
Definition split_sign (s : string) : string * string :=
  match s with
  | String c r => if Ascii.eqb c "+" || Ascii.eqb c "-" then (chr c, r) else (EmptyString, s)
  | EmptyString => (EmptyString, s)
  end.

(** The exponent part at the front of [s]: e or E, a sign if any, and at
    least one digit; empty when there is none. *)
Definition read_exponent (s : string) : string :=
  match s with
  | String e r =>
      if Ascii.eqb e "e" || Ascii.eqb e "E" then
        let '(sign, r1) := split_sign r in
        let '(ds, _) := take_digits r1 in
        if is_empty ds then EmptyString else String e (sign +:+ ds)
      else EmptyString
  | EmptyString => EmptyString
  end.

(** What follows the decimal point at the front of [s], if there is one. *)
Definition after_point (s : string) : option string :=
  match s with
  | String c r => if Ascii.eqb c "." then Some r else None
  | EmptyString => None
  end.

(** The longest unsigned decimal literal at the front of [s]: Infinity, or
    digits with an optional fraction, or a point and digits, each with an
    optional exponent. *)
Definition read_unsigned (s : string) : option string :=
  if startsWith s "Infinity" then Some "Infinity"
  else
    let '(d1, r1) := take_digits s in
    match after_point r1 with
    | Some r2 =>
        let '(d2, r3) := take_digits r2 in
        if is_empty d1 && is_empty d2 then None
        else Some (d1 +:+ "." +:+ d2 +:+ read_exponent r3)
    | None => if is_empty d1 then None else Some (d1 +:+ read_exponent r1)
    end.

(** [parseFloat(string)]: leading white space is skipped, and the longest
    prefix that is a decimal literal, signed or not, is converted; anything
    after it is ignored. *)
Definition parseFloat (input : string) : jsfloat :=
  let '(sign, rest) := split_sign (trimStart input) in
  match read_unsigned rest with
  | Some text => FloatLiteral (sign +:+ text)
  | None => FloatNaN
  end.

Definition floatIsNaN (x : jsfloat) : bool :=
  match x with FloatNaN => true | FloatLiteral _ => false end.

(** [validateNumber(value, fieldName)]. *)
Definition validateNumber (value fieldName : string) : outcome bool :=
  if nonblank value then
    let numValue := parseFloat value in
    if floatIsNaN numValue then
      Throw (mkValidationError (fieldName +:+ " must be a valid number") fieldName)
    else Return true
  else Return true.

(** [validateText(value, fieldName)], for a [value] that is a string. *)
Definition validateText (value fieldName : string) : outcome bool :=
  if negb (truthy value) || String.eqb (trim value) EmptyString then
    Throw (mkValidationError (fieldName +:+ " must be valid text") fieldName)
  else Return true.

(** The options of [validateField] and the entries of a field
    configuration, with the three fields given, as [createFieldConfig]
    gives them (the defaults of the destructuring stand in for a field that
    is left out). *)
Record options := mkOptions {
  required : bool;
  type : string;
  isPrimaryKey : bool
}.

(** The rule the [switch] on the lower-cased type selects. *)
Definition rule_of_type (type : string) : string -> string -> outcome bool :=
  let t := toLowerCase type in
  if String.eqb t "email" then validateEmail
  else if String.eqb t "number" then validateNumber
  else if String.eqb t "integer" then validateInteger
  else validateText.

(** [validateField(value, fieldName, options)]. *)
Definition validateField (value fieldName : string) (o : options) : outcome bool :=
  _ ← (if required o then validateNotEmpty value fieldName else Return true);
  _ ← (if nonblank value then rule_of_type (type o) value fieldName else Return true);
  _ ← (if isPrimaryKey o && nonblank value then validateNumber value fieldName
       else Return true);
  Return true.

(** An entry of the [errors] array. *)
Record form_error := mkFormError {
  error_field : string;
  error_message : string
}.

Record validation_result := mkValidationResult {
  isValid : bool;
  errors : list form_error
}.

(** The error a field contributes, if any: [formData[fieldName] || ''] is
    validated under the configuration of the field. *)
Definition field_error (formData : gmap string string)
    (entry : string * options) : option form_error :=
  match validateField (default EmptyString (formData !! entry.1)) entry.1 entry.2 with
  | Throw e => Some (mkFormError (field e) (message e))
  | Return _ => None
  end.

(** [validateForm(formData, fieldConfigs)].  The code visits the entries of
    the configuration in the order they were put in; here they are visited
    in the order of [map_to_list]: the errors are the same, their order may
    differ.  A form is read at the keys it holds itself. *)
Definition validateForm (formData : gmap string string)
    (fieldConfigs : gmap string options) : validation_result :=
  let errors := omap (field_error formData) (map_to_list fieldConfigs) in
  mkValidationResult (length errors =? 0)%nat errors.

(** [createFieldConfig(columns, primaryKey)]. *)
Definition createFieldConfig (columns : list string) (primaryKey : option string)
  : gmap string options :=
  foldl (λ config column,
           let isPrimaryKey := bool_decide (Some column = primaryKey) in
           let fieldType := inferFieldType column in
           <[column := mkOptions (negb isPrimaryKey) fieldType isPrimaryKey]> config)
        ∅ columns.

End Validation.

(* ===================================================================== *)
(** ** restcallsfordbdata.mjs: the data-access module *)
(* ===================================================================== *)

Module DataAccess.
Import JsString.
Local Open Scope Z_scope.

(** A JSON document: what [JSON.stringify] takes and [response.json()]
    gives. *)
#[local] Unset Elimination Schemes.
Inductive json :=
| JNull
| JNum (n : Z)
| JStr (s : string)
| JArr (items : list json)
| JObj (fields : list (string * json)).
#[local] Set Elimination Schemes.

(** What is sent: the method, the URL and, for POST and PUT, the payload
    (the object handed to [JSON.stringify]). *)
Record request := mkRequest {
  req_method : string;
  req_url : string;
  req_payload : option json
}.

(** What reading the body as JSON comes to: the document it holds, or, when
    the body is not JSON, the error the parser raises, with its message. *)
Inductive parsed :=
| Json (j : json)
| NotJson (error : string).

(** What comes back: the status and the body. *)
Record response := mkResponse {
  status : Z;
  body : parsed
}.

(** [response.ok]: the status is in 200..299. *)
Definition ok (r : response) : bool := (200 <=? status r) && (status r <=? 299).

(** What [fetch] settles to: a response, whatever its status, or, when no
    response arrives, the error it rejects with. *)
Inductive reply :=
| Replied (r : response)
| Failed (error : string).

(** The network, as the module sees it: what each request settles to. *)
Definition network := request -> reply.

(** An operation runs against the network and a log of the requests sent so
    far; it returns a result or throws an [Error] with a message. *)
Inductive result (A : Type) :=
| Returned (a : A)
| Thrown (msg : string).
Arguments Returned {A} a.
Arguments Thrown {A} msg.

Definition M (A : Type) : Type := network -> list request -> result A * list request.

Definition ret {A} (a : A) : M A := fun _ log => (Returned a, log).
Definition throw {A} (msg : string) : M A := fun _ log => (Thrown msg, log).
Definition bind {A B} (k : A -> M B) (m : M A) : M B :=
  fun net log =>
    match m net log with
    | (Returned a, log') => k a net log'
    | (Thrown msg, log') => (Thrown msg, log')
    end.

(** [x ← m; k] reads as [const x = await m; k]. *)
#[global] Instance M_ret : MRet M := @ret.
#[global] Instance M_bind : MBind M := @bind.

(** [await fetch(url, options)]. *)
Definition fetch (r : request) : M response :=
  fun net log =>
    match net r with
    | Replied response => (Returned response, log ++ [r])
    | Failed error => (Thrown error, log ++ [r])
    end.

(** [response.json()]. *)
Definition json_of (r : response) : M json :=
  match body r with
  | Json j => ret j
  | NotJson error => throw error
  end.

Definition hex_digit (n : N) : ascii :=
  ascii_of_N (if (n <? 10)%N then 48 + n else 55 + n).

Definition percent (b : N) : string :=
  String "%" (String (hex_digit (b / 16)) (String (hex_digit (b mod 16)) EmptyString)).

(** The characters [encodeURIComponent] leaves as they are. *)
Definition uri_unreserved (c : ascii) : bool :=
  let n := N_of_ascii c in
  ((48 <=? n) && (n <=? 57) || (65 <=? n) && (n <=? 90) || (97 <=? n) && (n <=? 122))%N
  || existsb (Ascii.eqb c) (to_list "-_.!~*'()").

(** A code unit below 128 is one UTF-8 byte, one from 128 to 255 is two. *)
Definition encode_char (c : ascii) : string :=
  let n := N_of_ascii c in
  if uri_unreserved c then chr c
  else if (n <? 128)%N then percent n
  else percent (192 + n / 64) +:+ percent (128 + n mod 64).

Fixpoint encodeURIComponent (s : string) : string :=
  match s with
  | EmptyString => EmptyString
  | String c r => encode_char c +:+ encodeURIComponent r
  end.

Definition fetchAllItems (tableName : string) : M json :=
  response ← fetch (mkRequest "GET" ("/api/" +:+ encodeURIComponent tableName) None);
  if negb (ok response) then
    throw ("HTTP error! status: " +:+ decimal (status response))
  else json_of response.

Definition fetchFilteredItems (tableName searchValue : string) : M json :=
  let url := "/api/" +:+ encodeURIComponent tableName +:+ "/search/" +:+
             encodeURIComponent searchValue in
  response ← fetch (mkRequest "GET" url None);
  if negb (ok response) then
    throw ("HTTP error! status: " +:+ decimal (status response))
  else json_of response.

Definition createItem (tableName : string) (payload : json) : M response :=
  response ← fetch (mkRequest "POST" ("/api/" +:+ encodeURIComponent tableName)
                       (Some payload));
  if negb (ok response) then
    throw ("Create failed: " +:+ decimal (status response))
  else ret response.

Definition updateItem (tableName pkValue : string) (payload : json)
  : M response :=
  response ← fetch (mkRequest "PUT"
                       ("/api/" +:+ encodeURIComponent tableName +:+ "/" +:+
                        encodeURIComponent pkValue)
                       (Some payload));
  if negb (ok response) then
    throw ("Update failed: " +:+ decimal (status response))
  else ret response.

Definition deleteItem (tableName pkValue : string) : M response :=
  response ← fetch (mkRequest "DELETE"
                       ("/api/" +:+ encodeURIComponent tableName +:+ "/" +:+
                        encodeURIComponent pkValue)
                       None);
  if negb (ok response) then
    throw ("Deletion failed: " +:+ decimal (status response))
  else ret response.

Definition fetchTableMeta (tableName : string) : M json :=
  response ← fetch (mkRequest "GET"
                       ("/api/" +:+ encodeURIComponent tableName +:+ "/meta") None);
  if negb (ok response) then
    throw ("Failed to load metadata for " +:+ tableName)
  else json_of response.

End DataAccess.

(* ===================================================================== *)
(** ** The database engine *)
(* ===================================================================== *)

(** The server hands SQL text and bound parameters to an embedded engine
    (SQLite, through the [sqlite3] binding) and continues with what the
    engine answers.  The engine is not part of the repository.  This module
    is a model of it for the statements the server issues: the text is
    parsed back into a statement, and the statement is run on tables that are
    lists of rows.

    The model has limits.  Values are null, integers and texts.  A key is
    compared with a bound text as [sql_eq] says, and a written value is
    stored as it is bound: the conversions the engine makes by the declared
    type of a column (a text that reads as a number against an integer
    column, a number written to a text column) are outside the model.  So
    are default values, declared constraints other than the shape of the
    table, the bookkeeping of AUTOINCREMENT, and writing a rowid explicitly.
    A write of the model fails only on a table or a column that is not
    there, on a wrong number of parameters, and on an explicit rowid.

    What is proved of the routes that write is therefore stated on what the
    engine answers, an error or the row id and the number of rows changed,
    whatever that answer is; the comparison of the model is relied on only
    where the key is an integer rowid and the id its decimal form. *)

Module Sqlite.
Import JsString.
Local Open Scope Z_scope.

(** A column as [PRAGMA table_info] describes it: its name, its declared
    type, and [pk], its position in the primary key (1, 2, ...; 0 when the
    column is not part of the key). *)
Record column := mkColumn {
  col_name : string;
  col_type : string;
  col_pk : Z
}.

(** A table: its columns and its rows, each stored under its rowid. *)
Record table := mkTable {
  tbl_columns : list column;
  tbl_rows : list (Z * row)
}.

Abbreviation database := (gmap string table).

(** *** Statements *)

Inductive condition :=
| CAll
| CEq (c : string)
| CLikeAny (cs : list string).

Inductive statement :=
| TableExists
| TableInfo (t : string)
| Select (t : string) (w : condition) (order : option string)
| Insert (t : string) (cols : list string) (placeholders : nat)
| Update (t : string) (cols : list string) (w : string)
| Delete (t : string) (w : string).

(** *** Reading SQL text *)

(** [strip_prefix p s] is what follows [p] in [s]. *)
Fixpoint strip_prefix (p s : string) {struct p} : option string :=
  match p, s with
  | EmptyString, _ => Some s
  | String _ _, EmptyString => None
  | String a p', String b s' => if Ascii.eqb a b then strip_prefix p' s' else None
  end.

(** The inside of a quoted identifier, up to its closing quote; a doubled
    quote stands for one quote. *)
Fixpoint identifier_body (s : string) : option (string * string) :=
  match s with
  | EmptyString => None
  | String c r =>
      if Ascii.eqb c dquote then
        match r with
        | String d r' =>
            if Ascii.eqb d dquote then
              match identifier_body r' with
              | Some (x, rest) => Some (String dquote x, rest)
              | None => None
              end
            else Some (EmptyString, r)
        | EmptyString => Some (EmptyString, EmptyString)
        end
      else
        match identifier_body r with
        | Some (x, rest) => Some (String c x, rest)
        | None => None
        end
  end.

Definition identifier (s : string) : option (string * string) :=
  match s with
  | String c r => if Ascii.eqb c dquote then identifier_body r else None
  | EmptyString => None
  end.

(** One or more items separated by [sep]. *)
Fixpoint separated {A} (item : string -> option (A * string)) (sep : string)
    (fuel : nat) (s : string) : option (list A * string) :=
  match fuel with
  | O => None
  | S fuel' =>
      match item s with
      | None => None
      | Some (x, r) =>
          match strip_prefix sep r with
          | None => Some ([x], r)
          | Some r' =>
              match separated item sep fuel' r' with
              | Some (xs, r'') => Some (x :: xs, r'')
              | None => None
              end
          end
      end
  end.

Definition items {A} (item : string -> option (A * string)) (sep : string)
    (s : string) : option (list A * string) :=
  separated item sep (S (String.length s)) s.

Definition cast_like (s : string) : option (string * string) :=
  r ← strip_prefix "CAST(" s;
  '(c, r) ← identifier r;
  r ← strip_prefix " AS TEXT) LIKE ?" r;
  Some (c, r).

Definition assignment (s : string) : option (string * string) :=
  '(c, r) ← identifier s;
  r ← strip_prefix " = ?" r;
  Some (c, r).

Definition placeholder (s : string) : option (unit * string) :=
  r ← strip_prefix "?" s;
  Some ((), r).

Definition at_end {A} (a : A) (r : string) : option A :=
  match r with EmptyString => Some a | _ => None end.

Definition parse_where (t : string) (r : string) : option statement :=
  match assignment r with
  | Some (c, r') => at_end (Select t (CEq c) None) r'
  | None =>
      '(cs, r') ← items cast_like " OR " r;
      at_end (Select t (CLikeAny cs) None) r'
  end.

Definition parse_select (r : string) : option statement :=
  '(t, r) ← identifier r;
  match r with
  | EmptyString => Some (Select t CAll None)
  | _ =>
      match strip_prefix " ORDER BY " r with
      | Some r' =>
          '(c, r') ← identifier r';
          r' ← strip_prefix " DESC" r';
          at_end (Select t CAll (Some c)) r'
      | None =>
          r' ← strip_prefix " WHERE " r;
          parse_where t r'
      end
  end.

Definition parse_insert (r : string) : option statement :=
  '(t, r) ← identifier r;
  r ← strip_prefix " (" r;
  '(cols, r) ← items identifier ", " r;
  r ← strip_prefix ") VALUES (" r;
  '(qs, r) ← items placeholder ", " r;
  r ← strip_prefix ")" r;
  at_end (Insert t cols (length qs)) r.

Definition parse_update (r : string) : option statement :=
  '(t, r) ← identifier r;
  r ← strip_prefix " SET " r;
  '(cols, r) ← items assignment ", " r;
  r ← strip_prefix " WHERE " r;
  '(w, r) ← assignment r;
  at_end (Update t cols w) r.

Definition parse_delete (r : string) : option statement :=
  '(t, r) ← identifier r;
  r ← strip_prefix " WHERE " r;
  '(w, r) ← assignment r;
  at_end (Delete t w) r.

Definition parse_table_info (r : string) : option statement :=
  '(t, r) ← identifier r;
  r ← strip_prefix ")" r;
  at_end (TableInfo t) r.

Definition exists_sql : string :=
  "SELECT name FROM sqlite_master WHERE type='table' AND name = ?".

Definition parse_sql (sql : string) : option statement :=
  if String.eqb sql exists_sql then Some TableExists
  else match strip_prefix "PRAGMA table_info(" sql with
  | Some r => parse_table_info r
  | None =>
  match strip_prefix "SELECT * FROM " sql with
  | Some r => parse_select r
  | None =>
  match strip_prefix "INSERT INTO " sql with
  | Some r => parse_insert r
  | None =>
  match strip_prefix "UPDATE " sql with
  | Some r => parse_update r
  | None =>
  match strip_prefix "DELETE FROM " sql with
  | Some r => parse_delete r
  | None => None
  end end end end end.

(** *** Running a statement *)

(** What the engine hands to the callback: an error, or the result. *)
Inductive outcome (A : Type) :=
| SqlError (msg : string)
| SqlOk (a : A).
Arguments SqlError {A} msg.
Arguments SqlOk {A} a.

(** [this.lastID] and [this.changes] of a completed [run]. *)
Record run_info := mkRunInfo {
  lastID : Z;
  changes : Z
}.

Definition column_names (tb : table) : list string := map col_name (tbl_columns tb).

Definition has_column (tb : table) (c : string) : bool :=
  bool_decide (c ∈ column_names tb).

(** The cell of a row: null when the row has no such field. *)
Definition cell (c : string) (r : row) : value := default VNull (r !! c).

(** The order of values: null first, then integers, then texts. *)
Definition value_leb (a b : value) : bool :=
  match a, b with
  | VNull, _ => true
  | VInt _, VNull => false
  | VInt x, VInt y => x <=? y
  | VInt _, VText _ => true
  | VText _, (VNull | VInt _) => false
  | VText x, VText y => bool_decide (String.le x y)
  end.

(** [r1] may stand before [r2] under [ORDER BY c DESC]. *)
Definition desc_by (c : string) (r1 r2 : row) : Prop :=
  value_leb (cell c r2) (cell c r1).

#[global] Instance desc_by_dec c : RelDecision (desc_by c).
Proof. intros r1 r2. unfold desc_by. apply _. Defined.

(** [CAST(x AS TEXT)]: nothing for null. *)
Definition cast_text (v : value) : option string :=
  match v with
  | VNull => None
  | VInt n => Some (decimal n)
  | VText s => Some s
  end.

(** A-Z fold to a-z in [LIKE]; no other character does. *)
Definition fold_ascii (c : ascii) : ascii :=
  let n := N_of_ascii c in
  if ((65 <=? n) && (n <=? 90))%N then ascii_of_N (n + 32) else c.

Definition like_char (p c : ascii) : bool :=
  Ascii.eqb (fold_ascii p) (fold_ascii c).

Definition percent_sign : ascii := ascii_of_N 37.
Definition underscore : ascii := ascii_of_N 95.

(** [text LIKE pattern]: a percent sign matches any run of characters, an
    underscore any one character, any other character itself up to case. *)
Fixpoint like (pattern text : list ascii) {struct pattern} : bool :=
  match pattern with
  | [] => match text with [] => true | _ => false end
  | p :: pattern' =>
      if Ascii.eqb p percent_sign then
        (fix skip (t : list ascii) : bool :=
           like pattern' t ||
           match t with
           | [] => false
           | _ :: t' => skip t'
           end) text
      else
        match text with
        | [] => false
        | c :: text' =>
            (Ascii.eqb p underscore || like_char p c) && like pattern' text'
        end
  end.

(** [CAST(cell AS TEXT) LIKE param]. *)
Definition cell_like (param : value) (v : value) : bool :=
  match cast_text param, cast_text v with
  | Some pat, Some txt => like (to_list pat) (to_list txt)
  | _, _ => false
  end.

(** [cell = param], without the conversions by column type: a stored
    integer equals a text that is its decimal form. *)
Definition sql_eq (v param : value) : bool :=
  match v, param with
  | VNull, _ | _, VNull => false
  | VInt x, VInt y => x =? y
  | VText x, VText y => String.eqb x y
  | VInt x, VText y | VText y, VInt x => String.eqb (decimal x) y
  end.

(** The row of [PRAGMA table_info] for the column at position [cid]. *)
Definition info_row (cid : nat) (c : column) : row :=
  {[ "cid" := VInt (Z.of_nat cid);
     "name" := VText (col_name c);
     "type" := VText (col_type c);
     "notnull" := VInt 0;
     "dflt_value" := VNull;
     "pk" := VInt (col_pk c) ]}.

Definition no_such_table (t : string) : string := "SQLITE_ERROR: no such table: " +:+ t.
Definition no_such_column (c : string) : string := "SQLITE_ERROR: no such column: " +:+ c.
Definition range_error : string := "SQLITE_RANGE: column index out of range".

(** The rows a query statement gives. *)
Definition query (d : database) (st : statement) (params : list value)
  : outcome (list row) :=
  match st with
  | TableExists =>
      match params with
      | [VText name] =>
          SqlOk (if d !! name is Some _ then [ {[ "name" := VText name ]} ] else [])
      | [_] => SqlOk []
      | _ => SqlError range_error
      end
  | TableInfo t =>
      match params with
      | [] => SqlOk (if d !! t is Some tb then imap info_row (tbl_columns tb) else [])
      | _ => SqlError range_error
      end
  | Select t CAll order =>
      match d !! t, params with
      | None, _ => SqlError (no_such_table t)
      | Some tb, [] =>
          match order with
          | None => SqlOk (tbl_rows tb).*2
          | Some c =>
              if has_column tb c then SqlOk (merge_sort (desc_by c) (tbl_rows tb).*2)
              else SqlError (no_such_column c)
          end
      | Some _, _ => SqlError range_error
      end
  | Select t (CEq c) _ =>
      match d !! t, params with
      | None, _ => SqlError (no_such_table t)
      | Some tb, [p] =>
          if has_column tb c
          then SqlOk (filter (λ r, sql_eq (cell c r) p) (tbl_rows tb).*2)
          else SqlError (no_such_column c)
      | Some _, _ => SqlError range_error
      end
  | Select t (CLikeAny cs) _ =>
      match d !! t with
      | None => SqlError (no_such_table t)
      | Some tb =>
          if negb (length params =? length cs)%nat then SqlError range_error
          else if negb (forallb (has_column tb) cs) then SqlError "SQLITE_ERROR: no such column"
          else SqlOk (filter
                        (λ r, existsb (λ cp, cell_like cp.2 (cell cp.1 r)) (zip cs params))
                        (tbl_rows tb).*2)
      end
  | _ => SqlError "SQLITE_MISUSE: not a query"
  end.

(** [INTEGER PRIMARY KEY]: the one column of the key, of type INTEGER, is
    another name of the rowid. *)
Definition rowid_alias (tb : table) : option string :=
  match filter (λ c, 0 < col_pk c) (tbl_columns tb) with
  | [c] => if String.eqb (toLowerCase (col_type c)) "integer" then Some (col_name c) else None
  | _ => None
  end.

(** The rowid of the next row: one more than the largest in use. *)
Definition next_rowid (tb : table) : Z :=
  1 + foldr Z.max 0 (tbl_rows tb).*1.

(** The row an insert stores: the given values, as they are bound, null
    elsewhere, and the rowid under the name of its alias. *)
Definition new_row (tb : table) (given : row) (rowid : Z) : row :=
  let cells : row := list_to_map (map (λ c, (c, cell c given)) (column_names tb)) in
  match rowid_alias tb with
  | Some a => <[a := VInt rowid]> cells
  | None => cells
  end.

Definition writes_rowid (tb : table) (cols : list string) : bool :=
  match rowid_alias tb with
  | Some a => bool_decide (a ∈ cols)
  | None => false
  end.

(** The row after [SET cols = values], the values as they are bound. *)
Definition assign (cols : list string) (values : list value) (r : row) : row :=
  list_to_map (zip cols values) ∪ r.

(** A statement that changes the database. *)
Definition execute (d : database) (st : statement) (params : list value)
  : outcome (database * run_info) :=
  match st with
  | Insert t cols n =>
      match d !! t with
      | None => SqlError (no_such_table t)
      | Some tb =>
          if negb ((length cols =? n)%nat && (length params =? n)%nat)
          then SqlError range_error
          else if negb (forallb (has_column tb) cols) then SqlError "SQLITE_ERROR: no such column"
          else if writes_rowid tb cols then SqlError "explicit rowid"
          else
            let rowid := next_rowid tb in
            let r := new_row tb (list_to_map (zip cols params)) rowid in
            SqlOk (<[t := mkTable (tbl_columns tb) (tbl_rows tb ++ [(rowid, r)])]> d,
                   mkRunInfo rowid 1)
      end
  | Update t cols w =>
      match d !! t with
      | None => SqlError (no_such_table t)
      | Some tb =>
          if negb (length params =? S (length cols))%nat then SqlError range_error
          else if negb (forallb (has_column tb) (w :: cols))
          then SqlError "SQLITE_ERROR: no such column"
          else if writes_rowid tb cols then SqlError "explicit rowid"
          else
            let values := take (length cols) params in
            let id := default VNull (last params) in
            let hit (r : row) := sql_eq (cell w r) id in
            let rows' := map (λ ir : Z * row,
                                if hit ir.2 then (ir.1, assign cols values ir.2) else ir)
                             (tbl_rows tb) in
            SqlOk (<[t := mkTable (tbl_columns tb) rows']> d,
                   mkRunInfo 0 (Z.of_nat (length (filter (λ ir, hit ir.2) (tbl_rows tb)))))
      end
  | Delete t w =>
      match d !! t, params with
      | None, _ => SqlError (no_such_table t)
      | Some tb, [id] =>
          if has_column tb w then
            let hit (r : row) := sql_eq (cell w r) id in
            SqlOk (<[t := mkTable (tbl_columns tb)
                             (filter (λ ir, negb (hit ir.2)) (tbl_rows tb))]> d,
                   mkRunInfo 0 (Z.of_nat (length (filter (λ ir, hit ir.2) (tbl_rows tb)))))
          else SqlError (no_such_column w)
      | Some _, _ => SqlError range_error
      end
  | _ => SqlError "SQLITE_MISUSE: not a write"
  end.

Definition syntax_error : string := "SQLITE_ERROR: syntax error".

(** [db.all(sql, params, callback)]: every row of the result. *)
Definition db_all (d : database) (sql : string) (params : list value)
  : outcome (list row) :=
  match parse_sql sql with
  | Some st => query d st params
  | None => SqlError syntax_error
  end.

(** [db.get(sql, params, callback)]: the first row, if any. *)
Definition db_get (d : database) (sql : string) (params : list value)
  : outcome (option row) :=
  match db_all d sql params with
  | SqlOk rows => SqlOk (head rows)
  | SqlError e => SqlError e
  end.

(** [db.run(sql, params, callback)]. *)
Definition db_run (d : database) (sql : string) (params : list value)
  : outcome (database * run_info) :=
  match parse_sql sql with
  | Some st => execute d st params
  | None => SqlError syntax_error
  end.

End Sqlite.

(* ===================================================================== *)
(** ** server.js: schema introspection and the generic /api routes *)
(* ===================================================================== *)

Module Server.
Import JsString Sqlite.
Local Open Scope Z_scope.

(** [{ columns: string[], primaryKey: string|null }]. *)
Record metadata := mkMeta {
  columns : list string;
  primaryKey : option string
}.

(** The process: [metadataCache] and the database behind [db]. *)
Record state := mkState {
  metadataCache : gmap string metadata;
  db : database
}.

(** What a handler sends. *)
Inductive payload :=
| Text (s : string)
| Rows (rows : list row)
| Object (fields : row)
| Meta (m : metadata)
| Empty.

Record response := mkResponse {
  status : Z;
  body : payload
}.

(** [quoteIdentifier(identifier)]. *)
Definition quoteIdentifier (identifier : string) : string :=
  chr dquote +:+ replaceAllChar dquote (chr dquote +:+ chr dquote) identifier +:+ chr dquote.

(** [String(r.name)] of an introspection row. *)
Definition name_of (r : row) : string :=
  match r !! "name" with
  | Some (VText s) => s
  | Some (VInt n) => decimal n
  | Some VNull => "null"
  | None => "undefined"
  end.

(** [r.pk === 1] and [r.pk > 0]. *)
Definition pk_is_one (r : row) : bool :=
  match r !! "pk" with Some (VInt n) => n =? 1 | _ => false end.
Definition pk_positive (r : row) : bool :=
  match r !! "pk" with Some (VInt n) => 0 <? n | _ => false end.

(** [a || b] on what [find] returns. *)
Definition or_else {A} (a b : option A) : option A :=
  match a with Some _ => a | None => b end.

(** The primary key read off the introspection rows. *)
Definition resolvePrimaryKey (rows : list row) : option string :=
  let columns := map name_of rows in
  let pkRow := or_else (List.find pk_is_one rows) (List.find pk_positive rows) in
  match pkRow with
  | Some r => Some (name_of r)
  | None => if bool_decide ("id" ∈ columns) then Some "id" else None
  end.

(** [getTableMetadata(tableName, callback)]: what the callback receives,
    an error message or the metadata, and the process afterwards. *)
Definition getTableMetadata (tableName : string) (st : state)
  : (string + metadata) * state :=
  match tableName with
  | EmptyString => (inl "Table name is required", st)
  | _ =>
    match metadataCache st !! tableName with
    | Some meta => (inr meta, st)
    | None =>
      match db_get (db st) "SELECT name FROM sqlite_master WHERE type='table' AND name = ?"
              [VText tableName] with
      | SqlError err => (inl err, st)
      | SqlOk None => (inl ("Table not found: " +:+ tableName), st)
      | SqlOk (Some _) =>
        let pragmaSql := "PRAGMA table_info(" +:+ quoteIdentifier tableName +:+ ")" in
        match db_all (db st) pragmaSql [] with
        | SqlError pragmaErr => (inl pragmaErr, st)
        | SqlOk [] => (inl ("No columns found for " +:+ tableName), st)
        | SqlOk rows =>
          let meta := mkMeta (map name_of rows) (resolvePrimaryKey rows) in
          (inr meta, mkState (<[tableName := meta]> (metadataCache st)) (db st))
        end
      end
    end
  end.

(** [meta.primaryKey] where a condition is expected: null and the empty
    string are falsy. *)
Definition truthy (pk : option string) : bool :=
  match pk with
  | Some (String _ _) => true
  | _ => false
  end.

(** [meta.primaryKey] where a string is expected, past a check that it is
    truthy. *)
Definition key_name (pk : option string) : string := default EmptyString pk.

(** [c !== meta.primaryKey]. *)
Definition is_not (pk : option string) (c : string) : bool :=
  negb (bool_decide (Some c = pk)).

(** [Object.prototype.hasOwnProperty.call(req.body, c)]. *)
Definition hasOwnProperty (o : row) (c : string) : bool :=
  bool_decide (is_Some (o !! c)).

(** The columns a write takes from the body. *)
Definition writable_keys (meta : metadata) (body : row) : list string :=
  let insertable := List.filter (is_not (primaryKey meta)) (columns meta) in
  List.filter (hasOwnProperty body) insertable.

(** [Object.fromEntries(keys.map((k, i) => [k, values[i]]))]. *)
Definition fromEntries (keys : list string) (values : list value) : row :=
  list_to_map (zip keys values).

Definition internal_error : response := mkResponse 500 (Text "Internal server error").
Definition no_primary_key : response :=
  mkResponse 400 (Text "Primary key not found for this table").
Definition not_found : response := mkResponse 404 (Text "Item not found").

(** [GET /api/:table/meta]. *)
Definition get_meta (table : string) (st : state) : response * state :=
  match getTableMetadata table st with
  | (inl err, st) => (mkResponse 400 (Text err), st)
  | (inr meta, st) => (mkResponse 200 (Meta meta), st)
  end.

Definition list_sql (table : string) (meta : metadata) : string :=
  let orderBy :=
    if truthy (primaryKey meta)
    then " ORDER BY " +:+ quoteIdentifier (key_name (primaryKey meta)) +:+ " DESC"
    else EmptyString in
  "SELECT * FROM " +:+ quoteIdentifier table +:+ orderBy.

(** [GET /api/:table]. *)
Definition get_list (table : string) (st : state) : response * state :=
  match getTableMetadata table st with
  | (inl err, st) => (mkResponse 400 (Text err), st)
  | (inr meta, st) =>
    match db_all (db st) (list_sql table meta) [] with
    | SqlError _ => (internal_error, st)
    | SqlOk rows => (mkResponse 200 (Rows rows), st)
    end
  end.

Definition where_pk_sql (meta : metadata) : string :=
  " WHERE " +:+ quoteIdentifier (key_name (primaryKey meta)) +:+ " = ?".

(** [GET /api/:table/:id]. *)
Definition get_one (table id : string) (st : state) : response * state :=
  match getTableMetadata table st with
  | (inl err, st) => (mkResponse 400 (Text err), st)
  | (inr meta, st) =>
    if negb (truthy (primaryKey meta)) then (no_primary_key, st)
    else
      let sql := "SELECT * FROM " +:+ quoteIdentifier table +:+ where_pk_sql meta in
      match db_get (db st) sql [VText id] with
      | SqlError _ => (internal_error, st)
      | SqlOk None => (not_found, st)
      | SqlOk (Some r) => (mkResponse 200 (Object r), st)
      end
  end.

Definition insert_sql (table : string) (keys : list string) : string :=
  let columnClause := join ", " (map quoteIdentifier keys) in
  let placeholders := join ", " (map (λ _, "?") keys) in
  "INSERT INTO " +:+ quoteIdentifier table +:+ " (" +:+ columnClause +:+
  ") VALUES (" +:+ placeholders +:+ ")".

(** [POST /api/:table]. *)
Definition post_item (table : string) (body : row) (st : state) : response * state :=
  match getTableMetadata table st with
  | (inl err, st) => (mkResponse 400 (Text err), st)
  | (inr meta, st) =>
    let keys := writable_keys meta body in
    match keys with
    | [] => (mkResponse 400 (Text "No valid columns provided in request body"), st)
    | _ =>
      let values := map (λ k, cell k body) keys in
      match db_run (db st) (insert_sql table keys) values with
      | SqlError _ => (internal_error, st)
      | SqlOk (d, this) =>
        let response := fromEntries keys values in
        let response :=
          if truthy (primaryKey meta)
          then <[key_name (primaryKey meta) := VInt (lastID this)]> response
          else response in
        (mkResponse 201 (Object response), mkState (metadataCache st) d)
      end
    end
  end.

Definition update_sql (table : string) (meta : metadata) (keys : list string) : string :=
  let setClause := join ", " (map (λ c, quoteIdentifier c +:+ " = ?") keys) in
  "UPDATE " +:+ quoteIdentifier table +:+ " SET " +:+ setClause +:+ where_pk_sql meta.

(** [PUT /api/:table/:id]. *)
Definition put_item (table id : string) (body : row) (st : state) : response * state :=
  match getTableMetadata table st with
  | (inl err, st) => (mkResponse 400 (Text err), st)
  | (inr meta, st) =>
    if negb (truthy (primaryKey meta)) then (no_primary_key, st)
    else
      let keys := writable_keys meta body in
      match keys with
      | [] => (mkResponse 400 (Text "No updatable columns provided in request body"), st)
      | _ =>
        let values := map (λ k, cell k body) keys in
        match db_run (db st) (update_sql table meta keys) (values ++ [VText id]) with
        | SqlError _ => (internal_error, st)
        | SqlOk (d, this) =>
          let st := mkState (metadataCache st) d in
          if changes this =? 0 then (not_found, st)
          else
            let response :=
              <[key_name (primaryKey meta) := VText id]> (fromEntries keys values) in
            (mkResponse 200 (Object response), st)
        end
      end
  end.

(** [DELETE /api/:table/:id]. *)
Definition delete_item (table id : string) (st : state) : response * state :=
  match getTableMetadata table st with
  | (inl err, st) => (mkResponse 400 (Text err), st)
  | (inr meta, st) =>
    if negb (truthy (primaryKey meta)) then (no_primary_key, st)
    else
      let sql := "DELETE FROM " +:+ quoteIdentifier table +:+ where_pk_sql meta in
      match db_run (db st) sql [VText id] with
      | SqlError _ => (internal_error, st)
      | SqlOk (d, this) =>
        let st := mkState (metadataCache st) d in
        if changes this =? 0 then (not_found, st)
        else (mkResponse 204 Empty, st)
      end
  end.

Definition search_where (meta : metadata) : string :=
  join " OR " (map (λ c, "CAST(" +:+ quoteIdentifier c +:+ " AS TEXT) LIKE ?") (columns meta)).

Definition search_sql (table : string) (meta : metadata) : string :=
  "SELECT * FROM " +:+ quoteIdentifier table +:+ " WHERE " +:+ search_where meta.

Definition search_params (meta : metadata) (q : string) : list value :=
  let like := "%" +:+ q +:+ "%" in
  map (λ _, VText like) (columns meta).

(** [GET /api/:table/search/:q]. *)
Definition search_items (table q : string) (st : state) : response * state :=
  match getTableMetadata table st with
  | (inl err, st) => (mkResponse 400 (Text err), st)
  | (inr meta, st) =>
    match db_all (db st) (search_sql table meta) (search_params meta q) with
    | SqlError _ => (internal_error, st)
    | SqlOk rows => (mkResponse 200 (Rows rows), st)
    end
  end.

(** The requests of the generic family, as the router hands them to the
    handlers: the route that was chosen and its parameters, decoded.  (A GET
    on the path of a table followed by the word meta goes to the metadata
    route, which is registered first; the one-row route gets the id meta
    when the word is written with a percent escape.) *)
Inductive request :=
| GetMeta (table : string)
| GetList (table : string)
| GetOne (table id : string)
| PostItem (table : string) (body : row)
| PutItem (table id : string) (body : row)
| DeleteItem (table id : string)
| SearchItems (table q : string).

Definition handle (r : request) (st : state) : response * state :=
  match r with
  | GetMeta t => get_meta t st
  | GetList t => get_list t st
  | GetOne t id => get_one t id st
  | PostItem t b => post_item t b st
  | PutItem t id b => put_item t id b st
  | DeleteItem t id => delete_item t id st
  | SearchItems t q => search_items t q st
  end.

(** The process after a sequence of requests. *)
Definition serve (rs : list request) (st : state) : state :=
  foldl (λ st r, (handle r st).2) st rs.

End Server.

(* ===================================================================== *)
(** ** itemmgmtapp.mjs: the helpers that compute *)
(* ===================================================================== *)

(** The module drives the page: it reads and writes the document and calls
    the data-access module.  Two of its helpers compute on strings alone. *)

Module ItemMgmtApp.
Import JsString Validation.
Local Open Scope Z_scope.

(** [inferProductFieldType(fieldName)]. *)
Definition inferProductFieldType (fieldName : string) : string :=
  let name := toLowerCase fieldName in
  if includes name "price" then "number"
  else inferFieldType fieldName.

(** Every character of [s] is a digit of radix [R]. *)
Fixpoint radix_digits (R : Z) (s : string) : bool :=
  match s with
  | EmptyString => true
  | String c r => bool_decide (is_Some (radix_digit R c)) && radix_digits R r
  end.

(** A binary, octal or hexadecimal integer literal: 0b, 0o or 0x, in either
    case, and at least one digit of the radix. *)
Definition non_decimal_literal (t : string) : bool :=
  match t with
  | String z (String x r) =>
      Ascii.eqb z "0" && negb (is_empty r) &&
      (if Ascii.eqb x "x" || Ascii.eqb x "X" then radix_digits 16 r
       else if Ascii.eqb x "o" || Ascii.eqb x "O" then radix_digits 8 r
       else if Ascii.eqb x "b" || Ascii.eqb x "B" then radix_digits 2 r
       else false)
  | _ => false
  end.

(** [Number(str)], the conversion the global [isNaN] applies to a string:
    white space is trimmed at both ends; the empty string is 0; otherwise
    the whole of what is left has to be a literal, non-decimal without a
    sign or decimal with an optional sign.  The literal stands for the
    number. *)
Definition toNumber (str : string) : jsfloat :=
  let t := trim str in
  if is_empty t then FloatLiteral "0"
  else if non_decimal_literal t then FloatLiteral t
  else
    let '(sign, rest) := split_sign t in
    match read_unsigned rest with
    | Some text => if String.eqb text rest then FloatLiteral t else FloatNaN
    | None => FloatNaN
    end.

(** [isNumeric(str)], for a [str] that is a string. *)
Definition isNumeric (str : string) : bool :=
  negb (floatIsNaN (toNumber str)) && negb (floatIsNaN (parseFloat str)).

End ItemMgmtApp.

(* ===================================================================== *)
(** ** Quoting, in the words of the specification *)
(* ===================================================================== *)

Section quoting_terms.
Import JsString.

(** The specification's wording of the quoting: every double quote of the
    name is doubled, and one double quote is put before and one after. *)
Definition double_quote (c : ascii) : list ascii :=
  if Ascii.eqb c dquote then [dquote; dquote] else [c].

Definition doubled_and_wrapped (name : list ascii) : list ascii :=
  [dquote] ++ flat_map double_quote name ++ [dquote].

(** The text does not begin with a double quote. *)
Definition no_quote_ahead (s : string) : bool :=
  match s with
  | String c _ => negb (Ascii.eqb c dquote)
  | EmptyString => true
  end.

End quoting_terms.

(* ===================================================================== *)
(** ** Validation, in the words of the specification *)
(* ===================================================================== *)

Section validation_terms.
Import JsString Validation.

Definition numeric_words : list string :=
  ["id"; "count"; "number"; "price"; "amount"; "quantity"].

(** The reading of the integer rule in the specification: the whole trimmed
    value is a base-10 integer, an optional sign and one or more decimal
    digits, nothing after them. *)
Definition is_decimal_digit (c : ascii) : bool :=
  let n := N_of_ascii c in ((48 <=? n) && (n <=? 57))%N.

Fixpoint all_digits (s : string) : bool :=
  match s with
  | EmptyString => true
  | String c r => is_decimal_digit c && all_digits r
  end.

Definition spec_is_base10_integer (value : string) : bool :=
  match trim value with
  | String "-" r | String "+" r => truthy r && all_digits r
  | r => truthy r && all_digits r
  end.

End validation_terms.

(* ===================================================================== *)
(** ** The operations of the data-access module *)
(* ===================================================================== *)

Section data_access_terms.
Import JsString DataAccess.
Local Open Scope Z_scope.

(** The six operations, with their arguments. *)
Inductive operation :=
| OpFetchAll (tableName : string)
| OpFetchFiltered (tableName searchValue : string)
| OpCreate (tableName : string) (payload : json)
| OpUpdate (tableName pkValue : string) (payload : json)
| OpRemove (tableName pkValue : string)
| OpFetchMeta (tableName : string).

(** The message an operation throws, if it throws. *)
Definition thrown {A} (r : result A * list request) : option string :=
  match r.1 with
  | Thrown msg => Some msg
  | Returned _ => None
  end.

(** Running an operation: the message thrown, if any, and the log. *)
Definition run (op : operation) (net : network) (log : list request)
  : option string * list request :=
  match op with
  | OpFetchAll t => let r := fetchAllItems t net log in (thrown r, r.2)
  | OpFetchFiltered t q => let r := fetchFilteredItems t q net log in (thrown r, r.2)
  | OpCreate t p => let r := createItem t p net log in (thrown r, r.2)
  | OpUpdate t k p => let r := updateItem t k p net log in (thrown r, r.2)
  | OpRemove t k => let r := deleteItem t k net log in (thrown r, r.2)
  | OpFetchMeta t => let r := fetchTableMeta t net log in (thrown r, r.2)
  end.

(** The message each operation has for a status that is not a success. *)
Definition failure_message (op : operation) (status : Z) : string :=
  match op with
  | OpFetchAll _ | OpFetchFiltered _ _ => "HTTP error! status: " +:+ decimal status
  | OpCreate _ _ => "Create failed: " +:+ decimal status
  | OpUpdate _ _ _ => "Update failed: " +:+ decimal status
  | OpRemove _ _ => "Deletion failed: " +:+ decimal status
  | OpFetchMeta t => "Failed to load metadata for " +:+ t
  end.

(** The operations whose message carries the status. *)
Definition reports_status (op : operation) : bool :=
  match op with OpFetchMeta _ => false | _ => true end.

(** The operations that read the body of a successful response as JSON;
    the others return the response unread. *)
Definition reads_body (op : operation) : bool :=
  match op with
  | OpFetchAll _ | OpFetchFiltered _ _ | OpFetchMeta _ => true
  | OpCreate _ _ | OpUpdate _ _ _ | OpRemove _ _ => false
  end.

(** The request each operation sends. *)
Definition request_of (op : operation) : request :=
  match op with
  | OpFetchAll t => mkRequest "GET" ("/api/" +:+ encodeURIComponent t) None
  | OpFetchFiltered t q =>
      mkRequest "GET"
        ("/api/" +:+ encodeURIComponent t +:+ "/search/" +:+ encodeURIComponent q) None
  | OpCreate t p => mkRequest "POST" ("/api/" +:+ encodeURIComponent t) (Some p)
  | OpUpdate t k p =>
      mkRequest "PUT"
        ("/api/" +:+ encodeURIComponent t +:+ "/" +:+ encodeURIComponent k) (Some p)
  | OpRemove t k =>
      mkRequest "DELETE"
        ("/api/" +:+ encodeURIComponent t +:+ "/" +:+ encodeURIComponent k) None
  | OpFetchMeta t => mkRequest "GET" ("/api/" +:+ encodeURIComponent t +:+ "/meta") None
  end.

End data_access_terms.

(* ===================================================================== *)
(** ** Tables, processes and what a route is expected to do *)
(* ===================================================================== *)

Section server_terms.
Import JsString Sqlite Server.
Local Open Scope Z_scope.

(** The primary key of a table, read off its columns as the code reads it
    off the introspection rows: the column at position 1 of the key, else
    the first column with a position in the key, else the column named id,
    else none. *)
Definition key_of_columns (cols : list column) : option string :=
  match or_else (List.find (λ c, col_pk c =? 1) cols) (List.find (λ c, 0 <? col_pk c) cols) with
  | Some c => Some (col_name c)
  | None => if bool_decide ("id" ∈ map col_name cols) then Some "id" else None
  end.

(** The metadata of a table. *)
Definition meta_of (tb : table) : metadata :=
  mkMeta (column_names tb) (key_of_columns (tbl_columns tb)).

(** The specification's wording of the primary key: the first column the
    engine flags as part of the primary key, else the column named id, else
    none. *)
Definition spec_primaryKey (cols : list column) : option string :=
  match List.find (λ c, 0 <? col_pk c) cols with
  | Some c => Some (col_name c)
  | None => if bool_decide ("id" ∈ map col_name cols) then Some "id" else None
  end.

(** The life of the process after a state: requests are served, and the
    database may be changed from outside, schema included. *)
Inductive later (st : state) : state -> Prop :=
| later_now : later st st
| later_request (st' : state) (r : request) :
    later st st' -> later st (handle r st').2
| later_outside (st' : state) (d : database) :
    later st st' -> later st (mkState (metadataCache st') d).

(** [r1] stands strictly before [r2] under a descending order on [c]. *)
Definition strictly_desc_by (c : string) (r1 r2 : row) : Prop :=
  desc_by c r1 r2 /\ cell c r1 <> cell c r2.

(** A table has a column, and its columns have names. *)
Definition well_formed (tb : table) : Prop :=
  tbl_columns tb <> [] /\ forall c, c ∈ tbl_columns tb -> col_name c <> EmptyString.

(** What is cached is the metadata of the table in the database. *)
Definition coherent (st : state) : Prop :=
  forall t meta, metadataCache st !! t = Some meta ->
    exists tb, db st !! t = Some tb /\ meta = meta_of tb.

(** The process serves the table [tb] under the name [t]. *)
Definition serves (st : state) (t : string) (tb : table) : Prop :=
  t <> EmptyString /\ db st !! t = Some tb /\ well_formed tb /\ coherent st.

(** After the metadata is resolved it is cached. *)
Definition cached (t : string) (tb : table) (st : state) : state :=
  mkState (<[t := meta_of tb]> (metadataCache st)) (db st).





(** The fields of the body a write takes: those named by a column of the
    table other than its primary key. *)
Definition sent (meta : metadata) (body : row) : row :=
  filter (λ kv : string * value, kv.1 ∈ columns meta /\ Some kv.1 <> primaryKey meta) body.

(** The state after a row is added to the table [t]. *)
Definition appended (t : string) (tb : table) (rowid : Z) (r : row) (st : state) : state :=
  mkState (<[t := meta_of tb]> (metadataCache st))
          (<[t := mkTable (tbl_columns tb) (tbl_rows tb ++ [(rowid, r)])]> (db st)).

(** The rows of a table after an update of the rows that [hit]. *)
Definition updated_rows (hit : row -> bool) (given : row) (rows : list (Z * row))
  : list (Z * row) :=
  map (λ ir : Z * row, if hit ir.2 then (ir.1, given ∪ ir.2) else ir) rows.

(** The state after the rows of [t] are replaced. *)
Definition rewritten (t : string) (tb : table) (rows : list (Z * row)) (st : state) : state :=
  mkState (<[t := meta_of tb]> (metadataCache st))
          (<[t := mkTable (tbl_columns tb) rows]> (db st)).

End server_terms.

(* ===================================================================== *)
(** ** Tables used as examples *)
(* ===================================================================== *)

Section example_tables.
Import JsString Sqlite Server.
Local Open Scope Z_scope.

(** A table of pairs whose key is declared on (b, a): the engine numbers the
    columns of a key by their place in the key. *)
Definition composite_columns : list column :=
  [mkColumn "a" "TEXT" 2; mkColumn "b" "TEXT" 1].

Definition composite_state : state :=
  mkState ∅ {[ "pairs" := mkTable composite_columns [] ]}.

(** A table of tags: the column id is not declared a key, and two tags
    carry the same id. *)
Definition tag_x : row := {[ "id" := VInt 1; "label" := VText "x" ]}.

Definition tag_y : row := {[ "id" := VInt 1; "label" := VText "y" ]}.

Definition tags : table :=
  mkTable [mkColumn "id" "INTEGER" 0; mkColumn "label" "TEXT" 0] [(1, tag_x); (2, tag_y)].

Definition tags_state : state := mkState ∅ {[ "tags" := tags ]}.

(** The two rows of the specification's example. *)
Definition alpha : row := {[ "name" := VText "Alpha" ]}.

Definition beta : row := {[ "name" := VText "beta" ]}.

Definition names : table := mkTable [mkColumn "name" "TEXT" 0] [(1, alpha); (2, beta)].

Definition names_state : state := mkState ∅ {[ "names" := names ]}.

(** A body with one key that names a column of the table of names and one
    that does not. *)
Definition gamma : row := {[ "name" := VText "gamma"; "colour" := VText "red" ]}.

(** A table of items with the key id. *)
Definition item_1 : row := {[ "id" := VInt 1; "name" := VText "Alpha" ]}.

Definition item_2 : row := {[ "id" := VInt 2; "name" := VText "beta" ]}.

Definition items_table : table :=
  mkTable [mkColumn "id" "INTEGER" 1; mkColumn "name" "TEXT" 0] [(1, item_1); (2, item_2)].

Definition items_state : state := mkState ∅ {[ "items" := items_table ]}.

(** The table of names after its column was renamed from outside, with the
    metadata read before that still in the cache. *)
Definition renamed_names : table := mkTable [mkColumn "title" "TEXT" 0] [].

Definition renamed_names_state : state :=
  mkState {[ "names" := meta_of names ]} {[ "names" := renamed_names ]}.

(** The table of items after its column name was renamed to label from
    outside, with the metadata read before that still in the cache. *)
Definition relabelled_items : table :=
  mkTable [mkColumn "id" "INTEGER" 1; mkColumn "label" "TEXT" 0]
          [(1, {[ "id" := VInt 1; "label" := VText "Alpha" ]})].

Definition relabelled_items_state : state :=
  mkState {[ "items" := meta_of items_table ]} {[ "items" := relabelled_items ]}.

End example_tables.

(* ===================================================================== *)
(** ** The language of a pattern, and the shapes the rules accept *)
(* ===================================================================== *)

Section more_validation_terms.
Import JsString JsRegExp Validation.

(** The strings a pattern stands for. *)
Inductive in_lang : regex -> list ascii -> Prop :=
| in_empty : in_lang Empty []
| in_class (p : ascii -> bool) (c : ascii) : p c = true -> in_lang (Class p) [c]
| in_seq (r1 r2 : regex) (s1 s2 : list ascii) :
    in_lang r1 s1 -> in_lang r2 s2 -> in_lang (Seq r1 r2) (s1 ++ s2)
| in_alt_l (r1 r2 : regex) (s : list ascii) : in_lang r1 s -> in_lang (Alt r1 r2) s
| in_alt_r (r1 r2 : regex) (s : list ascii) : in_lang r2 s -> in_lang (Alt r1 r2) s
| in_star_nil (r : regex) : in_lang (Star r) []
| in_star_cons (r : regex) (s1 s2 : list ascii) :
    in_lang r s1 -> in_lang (Star r) s2 -> in_lang (Star r) (s1 ++ s2).

(** A part of an address: not empty, no white space, no at sign. *)
Definition address_part (s : string) : Prop :=
  s <> EmptyString /\ Forall (λ c, plain_char c = true) (to_list s).

(** An address: a part, an at sign, a part, a point, a part. *)
Definition email_shaped (s : string) : Prop :=
  exists name host tail : string,
    s = name +:+ "@" +:+ host +:+ "." +:+ tail /\
    address_part name /\ address_part host /\ address_part tail.

(** The text begins, after a sign if any, with a digit, with a point and a
    digit, or with the word Infinity. *)
Definition begins_unsigned (s : string) : bool :=
  startsWith s "Infinity" ||
  match s with
  | String c r =>
      decimal_digit c ||
      (Ascii.eqb c "." && match r with String d _ => decimal_digit d | _ => false end)
  | EmptyString => false
  end.

Definition begins_number (s : string) : bool :=
  begins_unsigned (split_sign s).2.

(** The five messages of the rules, without the name of the field. *)
Definition rule_messages : list string :=
  [" cannot be empty"; " must be a valid email address"; " must be a valid number";
   " must be a valid integer"; " must be valid text"].

(** What a rule throws names the field, and its message is the name of the
    field followed by the text of the rule. *)
Definition well_named (fieldName : string) (r : outcome bool) : Prop :=
  match r with
  | Return _ => True
  | Throw e =>
      field e = fieldName /\
      exists m, m ∈ rule_messages /\ message e = fieldName +:+ m
  end.

(** The field fails under its configuration. *)
Definition fails (formData : gmap string string) (fieldName : string) (o : options) : Prop :=
  exists e, validateField (default EmptyString (formData !! fieldName)) fieldName o = Throw e.

End more_validation_terms.

(* ===================================================================== *)
(** ** Reading an encoded text back *)
(* ===================================================================== *)

Section more_data_access_terms.
Import JsString DataAccess.

(** The value of an upper-case hexadecimal digit. *)
Definition hex_value (c : ascii) : option N :=
  let n := N_of_ascii c in
  if ((48 <=? n) && (n <=? 57))%N then Some (n - 48)%N
  else if ((65 <=? n) && (n <=? 70))%N then Some (n - 55)%N
  else None.

(** The byte a percent escape at the front of [s] stands for, and what
    follows the escape. *)
Definition read_escape (s : string) : option (N * string) :=
  match s with
  | String p (String a (String b r)) =>
      if Ascii.eqb p "%" then
        match hex_value a, hex_value b with
        | Some h, Some l => Some (16 * h + l, r)%N
        | _, _ => None
        end
      else None
  | _ => None
  end.

(** The code unit the front of an encoded text stands for, and what follows
    it: the reading that undoes [encode_char]. *)
Definition decode_first (s : string) : option (ascii * string) :=
  match s with
  | EmptyString => None
  | String c r =>
      if Ascii.eqb c "%" then
        match read_escape s with
        | Some (n, r1) =>
            if (n <? 128)%N then Some (ascii_of_N n, r1)
            else
              match read_escape r1 with
              | Some (m, r2) => Some (ascii_of_N ((n - 192) * 64 + (m - 128)), r2)
              | None => None
              end
        | None => None
        end
      else Some (c, r)
  end.

(** A character of an encoded text: unreserved, or the percent sign. *)
Definition uri_safe (c : ascii) : bool := uri_unreserved c || Ascii.eqb c "%".

End more_data_access_terms.

(* ===================================================================== *)
(** ** Requests, keys and rowids *)
(* ===================================================================== *)

Section more_server_terms.
Import JsString Sqlite Server.
Local Open Scope Z_scope.

(** The table a request names. *)
Definition table_of (r : request) : string :=
  match r with
  | GetMeta t | GetList t | GetOne t _ | PostItem t _ | PutItem t _ _
  | DeleteItem t _ | SearchItems t _ => t
  end.

(** The requests of the four GET routes. *)
Definition reads (r : request) : bool :=
  match r with
  | GetMeta _ | GetList _ | GetOne _ _ | SearchItems _ _ => true
  | PostItem _ _ | PutItem _ _ _ | DeleteItem _ _ => false
  end.

(** The key of the row equals [id], as the engine compares them. *)
Definition has_key (pk id : string) (r : row) : bool := sql_eq (cell pk r) (VText id).

(** Every row holds its rowid under the name [pk], as the rows of a table
    with an INTEGER PRIMARY KEY do. *)
Definition keyed_by_rowid (pk : string) (tb : table) : Prop :=
  Forall (λ ir : Z * row, ir.2 !! pk = Some (VInt ir.1)) (tbl_rows tb).

(** The table of items was cached, and then dropped from outside. *)
Definition dropped_items_state : state :=
  mkState {[ "items" := meta_of items_table ]} ∅.

End more_server_terms.

(* ===================================================================== *)
(** ** The table of a statement *)
(* ===================================================================== *)

Section frame_terms.
Import JsString Sqlite Server.

(** The table a statement is about. *)
Definition statement_table (st : statement) : string :=
  match st with
  | TableExists => EmptyString
  | TableInfo t | Select t _ _ | Insert t _ _ | Update t _ _ | Delete t _ => t
  end.

End frame_terms.

(* ===================================================================== *)
(** ** Facts about strings *)
(* ===================================================================== *)

Section string_facts.
Import JsString.

Lemma app_String (a : ascii) (s t : string) :
  String a s +:+ t = String a (s +:+ t).
Proof. reflexivity. Qed.

Lemma app_empty_l (s : string) : EmptyString +:+ s = s.
Proof. reflexivity. Qed.

Lemma app_empty_r (s : string) : s +:+ EmptyString = s.
Proof. induction s as [|a s IH]; [done|]. by rewrite app_String, IH. Qed.

Lemma app_assoc_s (s t u : string) : (s +:+ t) +:+ u = s +:+ (t +:+ u).
Proof. induction s as [|a s IH]; [done|]. by rewrite !app_String, IH. Qed.

Lemma to_list_app (s t : string) : to_list (s +:+ t) = to_list s ++ to_list t.
Proof. induction s as [|a s IH]; [done|]. rewrite app_String. simpl. by rewrite IH. Qed.

Lemma of_to_list (s : string) : of_list (to_list s) = s.
Proof. induction s as [|a s IH]; [done|]. simpl. by rewrite IH. Qed.

Lemma to_of_list (l : list ascii) : to_list (of_list l) = l.
Proof. induction l as [|a l IH]; [done|]. simpl. by rewrite IH. Qed.

Lemma of_list_app (l k : list ascii) : of_list (l ++ k) = of_list l +:+ of_list k.
Proof. induction l as [|a l IH]; [done|]. simpl. by rewrite IH. Qed.

Lemma length_app_s (s t : string) :
  String.length (s +:+ t) = String.length s + String.length t.
Proof. induction s as [|a s IH]; [done|]. rewrite app_String. simpl. by rewrite IH. Qed.

Lemma startsWith_spec (s p : string) :
  startsWith s p = true <-> exists r, s = p +:+ r.
Proof.
  revert s. induction p as [|a p IH]; intros s; simpl.
  - split; [intros _; by exists s | done].
  - destruct s as [|b s].
    + split; [done | intros [r Hr]; by rewrite app_String in Hr].
    + destruct (Ascii.eqb a b) eqn:E.
      * apply Ascii.eqb_eq in E as ->. rewrite IH.
        split; intros [r Hr]; exists r.
        -- by rewrite app_String, Hr.
        -- rewrite app_String in Hr. by injection Hr.
      * apply Ascii.eqb_neq in E.
        split; [done | intros [r Hr]]. rewrite app_String in Hr.
        injection Hr as ? ?. congruence.
Qed.

Lemma includes_spec (s search : string) :
  includes s search = true <-> Substring search s.
Proof.
  induction s as [|a s IH]; simpl.
  - rewrite orb_false_r, startsWith_spec. split.
    + intros [r Hr]. by exists EmptyString, r.
    + intros [[|b pre] [post H]]; [by exists post|].
      by rewrite app_String in H.
  - rewrite orb_true_iff, startsWith_spec, IH. split.
    + intros [[r Hr] | (pre & post & H)].
      * by exists EmptyString, r.
      * exists (String a pre), post. by rewrite app_String, H.
    + intros [[|b pre] [post H]].
      * left. by exists post.
      * right. rewrite app_String in H. injection H as ? H.
        by exists pre, post.
Qed.

Lemma includes_false (s search : string) :
  includes s search = false <-> ~ Substring search s.
Proof.
  rewrite <- includes_spec. destruct (includes s search); split; congruence.
Qed.

End string_facts.

(* ===================================================================== *)
(** ** quoteIdentifier *)
(* ===================================================================== *)

Section quoting.
Import JsString Server.

Lemma replaceAllChar_doubles (s : string) :
  to_list (replaceAllChar dquote (chr dquote +:+ chr dquote) s)
  = flat_map double_quote (to_list s).
Proof.
  induction s as [|a s IH]; [done|].
  simpl. unfold double_quote at 1.
  destruct (Ascii.eqb a dquote).
  - rewrite to_list_app, IH. done.
  - simpl. by rewrite IH.
Qed.

(** C6. For every name, [quoteIdentifier name] is the name with each of its
    double quotes doubled, between one leading and one trailing double quote;
    for the name a, double quote, b it is the six characters double quote,
    a, double quote, double quote, b, double quote. *)
Theorem quoteIdentifier_doubles_and_wraps :
  (forall name : string,
     to_list (quoteIdentifier name) = doubled_and_wrapped (to_list name)) /\
  to_list (quoteIdentifier (String "a" (String dquote (String "b" EmptyString))))
  = [dquote; "a"; dquote; dquote; "b"; dquote]%char.
Proof.
  split; [|reflexivity].
  intros name. unfold quoteIdentifier, doubled_and_wrapped.
  rewrite !to_list_app, replaceAllChar_doubles. reflexivity.
Qed.

Lemma quoteIdentifier_length (name : string) :
  String.length (quoteIdentifier name)
  = 2 + String.length name + length (filter (λ c, c = dquote) (to_list name)).
Proof.
  unfold quoteIdentifier. rewrite !length_app_s. simpl.
  assert (String.length (replaceAllChar dquote (chr dquote +:+ chr dquote) name)
          = String.length name + length (filter (λ c, c = dquote) (to_list name))) as ->; [|lia].
  induction name as [|a s IH]; [done|].
  simpl. rewrite filter_cons. destruct (Ascii.eqb a dquote) eqn:E.
  - apply Ascii.eqb_eq in E as ->. rewrite decide_True by done.
    rewrite length_app_s, IH. simpl. lia.
  - apply Ascii.eqb_neq in E. rewrite decide_False by done. simpl. by rewrite IH.
Qed.

End quoting.

(* ===================================================================== *)
(** ** Validation *)
(* ===================================================================== *)

Section validation_facts.
Import JsString Validation.

Lemma includes_any (name : string) (words : list string) :
  existsb (includes name) words = true <-> exists k, k ∈ words /\ Substring k name.
Proof.
  rewrite existsb_exists. split; intros (k & Hk & H); exists k.
  - split; [by apply list_elem_of_In | by apply includes_spec].
  - split; [by apply list_elem_of_In | by apply includes_spec].
Qed.

Lemma inferFieldType_unfold (fieldName : string) :
  inferFieldType fieldName =
  let name := toLowerCase fieldName in
  if existsb (includes name) ["email"; "mail"] then "email"
  else if existsb (includes name) numeric_words then "number"
  else "text".
Proof. unfold inferFieldType. simpl. by rewrite !orb_false_r, !orb_assoc. Qed.

(** C7. [inferFieldType] lower-cases the name; the answer is email when the
    lower-cased name contains email or mail; otherwise number when it
    contains one of id, count, number, price, amount, quantity; otherwise
    text.  The name countryname is a number, for the count inside it. *)
Theorem inferFieldType_by_substring (fieldName : string) :
  let name := toLowerCase fieldName in
  let mail := Substring "email" name \/ Substring "mail" name in
  let numeric := exists k, k ∈ numeric_words /\ Substring k name in
  (mail -> inferFieldType fieldName = "email") /\
  (~ mail -> numeric -> inferFieldType fieldName = "number") /\
  (~ mail -> ~ numeric -> inferFieldType fieldName = "text") /\
  inferFieldType "countryname" = "number".
Proof.
  intros name mail numeric.
  assert (Hmail : existsb (includes name) ["email"; "mail"] = true <-> mail).
  { simpl. rewrite orb_false_r, orb_true_iff, !includes_spec. done. }
  assert (Hnum : existsb (includes name) numeric_words = true <-> numeric)
    by apply includes_any.
  rewrite inferFieldType_unfold. fold name. cbv zeta.
  destruct Hmail as [Hm1 Hm2], Hnum as [Hn1 Hn2].
  destruct (existsb (includes name) ["email"; "mail"]);
    destruct (existsb (includes name) numeric_words);
    intuition congruence.
Qed.

Lemma validateInteger_skips_blank (value fieldName : string) :
  trim value = EmptyString -> validateInteger value fieldName = Return true.
Proof.
  intros H. unfold validateInteger, nonblank. rewrite H. simpl.
  by rewrite andb_false_r.
Qed.

(** What the integer rule accepts: a value that is blank, or one in which
    [parseInt] finds an integer at the front. *)
Lemma validateInteger_accepts (value fieldName : string) :
  validateInteger value fieldName = Return true <->
  nonblank value = false \/ exists n, parseInt value = Finite n.
Proof.
  unfold validateInteger. destruct (nonblank value); [|by split; auto].
  destruct (parseInt value) as [|n|]; simpl; split; try done.
  - intros [?|[? ?]]; done.
  - eauto.
  - intros [?|[? ?]]; done.
Qed.

(** C8. The integer rule accepts the value 3.7: [parseInt] reads the 3 and
    stops at the point, and the integer test is applied to the 3.  The rule
    of the specification, a base-10 integer and nothing more, rejects it. *)
Theorem validateInteger_accepts_fraction :
  validateInteger "3.7" "quantity" = Return true /\
  parseInt "3.7" = Finite 3 /\
  spec_is_base10_integer "3.7" = false.
Proof. repeat split; vm_compute; reflexivity. Qed.

End validation_facts.

(* ===================================================================== *)
(** ** The data-access module *)
(* ===================================================================== *)

Section data_access_facts.
Import JsString DataAccess.
Local Open Scope Z_scope.

Lemma Substring_suffix (pre s : string) : Substring s (pre +:+ s).
Proof. exists pre, EmptyString. by rewrite app_empty_r. Qed.

(** C9, as the code has it. Every operation sends one request and no more.
    When no response arrives, the error of the fetch is passed on.  When the
    status of the response is not in 200..299 the operation throws: create,
    update and delete a message that names the operation and the status
    (Create failed: 400); the two list fetches the message HTTP error!
    status: and the status; the metadata fetch the message Failed to load
    metadata for and the table name, without the status.  When the status
    is in 200..299, create, update and delete throw nothing and return the
    response unread; the three fetches read the body as JSON, and throw the
    error of the parser when the body is not JSON. *)
Theorem operation_failure_messages (op : operation) (net : network) (log : list request) :
  (run op net log).2 = log ++ [request_of op] /\
  match net (request_of op) with
  | Failed error => (run op net log).1 = Some error
  | Replied response =>
      (ok response = false ->
         (run op net log).1 = Some (failure_message op (status response)) /\
         (reports_status op = true ->
            Substring (decimal (status response)) (failure_message op (status response)))) /\
      (ok response = true ->
         (run op net log).1 =
         if reads_body op
         then match body response with Json _ => None | NotJson error => Some error end
         else None)
  end.
Proof.
  destruct op; simpl;
    unfold fetchAllItems, fetchFilteredItems, createItem, updateItem, deleteItem,
      fetchTableMeta, thrown, mbind, M_bind, bind, fetch, json_of; simpl;
    match goal with |- context [net ?r] => destruct (net r) as [response|error] end;
    simpl; try done.
  all: destruct (ok response); simpl.
  all: try destruct (body response); simpl.
  all: split; [done|]; split; intros; try done.
  all: split; [done|]; intros; try done; apply Substring_suffix.
Qed.

(** C9, counterexample. The metadata fetch answered with status 400 throws a
    message in which the status does not occur. *)
Lemma fetchTableMeta_message_lacks_status :
  let net : network := fun _ => Replied (mkResponse 400 (Json JNull)) in
  exists msg : string,
    (fetchTableMeta "products" net []).1 = Thrown msg /\
    net (mkRequest "GET" "/api/products/meta" None) = Replied (mkResponse 400 (Json JNull)) /\
    ok (mkResponse 400 (Json JNull)) = false /\
    ~ Substring (decimal 400) msg.
Proof.
  exists "Failed to load metadata for products".
  split; [reflexivity|]. split; [reflexivity|]. split; [reflexivity|].
  apply includes_false. vm_compute. reflexivity.
Qed.

(** A list fetch answered 200 with a page that is not JSON throws the error
    of the parser. *)
Lemma fetchAllItems_throws_on_page :
  let net : network := fun _ => Replied (mkResponse 200 (NotJson "Unexpected token <")) in
  (fetchAllItems "products" net []).1 = Thrown "Unexpected token <".
Proof. reflexivity. Qed.

End data_access_facts.

(* ===================================================================== *)
(** ** The SQL text the server writes is the statement it means *)
(* ===================================================================== *)

Section sql_text.
Import JsString Sqlite Server.

Lemma strip_prefix_app (p s : string) : strip_prefix p (p +:+ s) = Some s.
Proof.
  induction p as [|a p IH]; [done|].
  rewrite app_String. simpl. by rewrite Ascii.eqb_refl.
Qed.

Lemma identifier_body_quoted (x rest : string) :
  no_quote_ahead rest = true ->
  identifier_body (replaceAllChar dquote (chr dquote +:+ chr dquote) x +:+ chr dquote +:+ rest)
  = Some (x, rest).
Proof.
  intros Hrest. induction x as [|a x IH].
  - change (identifier_body (String dquote rest) = Some (EmptyString, rest)).
    simpl. destruct rest as [|d r]; [done|].
    simpl in Hrest. by destruct (Ascii.eqb d dquote).
  - simpl replaceAllChar. destruct (Ascii.eqb a dquote) eqn:E.
    + apply Ascii.eqb_eq in E as ->.
      change (identifier_body
                (String dquote (String dquote
                   (replaceAllChar dquote (chr dquote +:+ chr dquote) x +:+ chr dquote +:+ rest)))
              = Some (String dquote x, rest)).
      simpl. by rewrite IH.
    + rewrite app_String. simpl. by rewrite E, IH.
Qed.

(** Reading back a quoted identifier gives the identifier. *)
Lemma identifier_quoteIdentifier (x rest : string) :
  no_quote_ahead rest = true ->
  identifier (quoteIdentifier x +:+ rest) = Some (x, rest).
Proof.
  intros Hrest. unfold quoteIdentifier.
  rewrite !app_assoc_s.
  change (identifier_body
            (replaceAllChar dquote (chr dquote +:+ chr dquote) x +:+ chr dquote +:+ rest)
          = Some (x, rest)).
  by apply identifier_body_quoted.
Qed.

#[local] Arguments strip_prefix : simpl never.
#[local] Arguments identifier : simpl never.
#[local] Arguments quoteIdentifier : simpl never.

(** X22. Quoting loses nothing: two names with the same quoted form are
    equal. *)
Lemma quoteIdentifier_inj (x y : string) :
  quoteIdentifier x = quoteIdentifier y -> x = y.
Proof.
  intros H.
  assert (identifier (quoteIdentifier x +:+ EmptyString) = Some (x, EmptyString)) as Hx
    by by apply identifier_quoteIdentifier.
  assert (identifier (quoteIdentifier y +:+ EmptyString) = Some (y, EmptyString)) as Hy
    by by apply identifier_quoteIdentifier.
  rewrite H in Hx. congruence.
Qed.

Lemma quoteIdentifier_inj_witness : "order items" = "order items".
Proof. refine (quoteIdentifier_inj "order items" "order items" _). reflexivity. Defined.

Lemma join_cons (sep x y : string) (l : list string) :
  join sep (x :: y :: l) = x +:+ sep +:+ join sep (y :: l).
Proof. reflexivity. Qed.

Section separated_items.
Context {A : Type} (item : string -> option (A * string)) (render : A -> string).
Context (sep : string) (fits : string -> Prop).
Hypothesis item_render : forall x r, fits r -> item (render x +:+ r) = Some (x, r).
Hypothesis fits_sep : forall r, fits (sep +:+ r).

Lemma separated_join (xs : list A) (rest : string) (fuel : nat) :
  xs <> [] -> length xs <= fuel ->
  fits rest -> strip_prefix sep rest = None ->
  separated item sep fuel (join sep (map render xs) +:+ rest) = Some (xs, rest).
Proof.
  intros Hne Hfuel Hrest Hstop. revert fuel Hfuel.
  induction xs as [|x [|y l] IH]; intros fuel Hfuel; [done|..].
  - destruct fuel as [|fuel]; [simpl in Hfuel; lia|].
    simpl. by rewrite item_render, Hstop.
  - destruct fuel as [|fuel]; [simpl in Hfuel; lia|].
    rewrite !fmap_cons, join_cons, !app_assoc_s. rewrite <- !fmap_cons.
    cbn [separated]. rewrite item_render by apply fits_sep.
    rewrite strip_prefix_app, IH; [done|done|]. simpl in *. lia.
Qed.

Lemma join_length (parts : list string) :
  sep <> EmptyString -> length parts <= S (String.length (join sep parts)).
Proof.
  intros Hsep. induction parts as [|x [|y l] IH]; [simpl; lia|simpl; lia|].
  rewrite join_cons, !length_app_s.
  destruct sep as [|c sep']; [done|]. simpl in *. lia.
Qed.

Lemma items_join (xs : list A) (rest : string) :
  sep <> EmptyString -> xs <> [] ->
  fits rest -> strip_prefix sep rest = None ->
  items item sep (join sep (map render xs) +:+ rest) = Some (xs, rest).
Proof.
  intros Hsep Hne Hrest Hstop. unfold items.
  apply separated_join; try done.
  rewrite length_app_s.
  pose proof (join_length (map render xs) Hsep) as H.
  rewrite length_map in H. lia.
Qed.

End separated_items.

Lemma cast_like_render (c r : string) :
  cast_like (("CAST(" +:+ quoteIdentifier c +:+ " AS TEXT) LIKE ?") +:+ r) = Some (c, r).
Proof.
  rewrite !app_assoc_s. unfold cast_like.
  rewrite strip_prefix_app. simpl.
  rewrite identifier_quoteIdentifier by done. reflexivity.
Qed.

Lemma assignment_render (c r : string) :
  assignment ((quoteIdentifier c +:+ " = ?") +:+ r) = Some (c, r).
Proof.
  rewrite !app_assoc_s. unfold assignment.
  rewrite identifier_quoteIdentifier by done. reflexivity.
Qed.

Lemma assignment_render_end (c : string) :
  assignment (quoteIdentifier c +:+ " = ?") = Some (c, EmptyString).
Proof.
  rewrite <- (app_empty_r (quoteIdentifier c +:+ " = ?")). apply assignment_render.
Qed.

Lemma placeholder_render (u : unit) (r : string) :
  placeholder ((λ _ : unit, "?") u +:+ r) = Some (u, r).
Proof. by destruct u. Qed.

Lemma parse_sql_pragma (x : string) :
  parse_sql ("PRAGMA table_info(" +:+ x) = parse_table_info x.
Proof. reflexivity. Qed.

Lemma parse_sql_select (x : string) :
  parse_sql ("SELECT * FROM " +:+ x) = parse_select x.
Proof. reflexivity. Qed.

Lemma parse_sql_insert (x : string) :
  parse_sql ("INSERT INTO " +:+ x) = parse_insert x.
Proof. reflexivity. Qed.

Lemma parse_sql_update (x : string) :
  parse_sql ("UPDATE " +:+ x) = parse_update x.
Proof. reflexivity. Qed.

Lemma parse_sql_delete (x : string) :
  parse_sql ("DELETE FROM " +:+ x) = parse_delete x.
Proof. reflexivity. Qed.

Lemma parse_exists_sql :
  parse_sql "SELECT name FROM sqlite_master WHERE type='table' AND name = ?"
  = Some TableExists.
Proof. reflexivity. Qed.

Lemma parse_pragma_sql (t : string) :
  parse_sql ("PRAGMA table_info(" +:+ quoteIdentifier t +:+ ")") = Some (TableInfo t).
Proof.
  rewrite parse_sql_pragma. unfold parse_table_info.
  rewrite identifier_quoteIdentifier by done. reflexivity.
Qed.

(** The statement behind the text of the list route. *)
Lemma parse_list_sql (t : string) (meta : metadata) :
  parse_sql (list_sql t meta)
  = Some (Select t CAll
            (if truthy (primaryKey meta) then Some (key_name (primaryKey meta)) else None)).
Proof.
  unfold list_sql. rewrite parse_sql_select. unfold parse_select.
  destruct (truthy (primaryKey meta)).
  - rewrite identifier_quoteIdentifier by done. simpl. rewrite ?app_empty_l.
    rewrite identifier_quoteIdentifier by done. reflexivity.
  - rewrite identifier_quoteIdentifier by done. reflexivity.
Qed.

Lemma parse_where_pk (t : string) (meta : metadata) :
  parse_sql ("SELECT * FROM " +:+ quoteIdentifier t +:+ where_pk_sql meta)
  = Some (Select t (CEq (key_name (primaryKey meta))) None).
Proof.
  rewrite parse_sql_select. unfold parse_select, where_pk_sql.
  rewrite identifier_quoteIdentifier by done. simpl. unfold parse_where.
  rewrite app_empty_l, assignment_render_end. reflexivity.
Qed.

Lemma parse_search_sql (t : string) (meta : metadata) :
  columns meta <> [] ->
  parse_sql (search_sql t meta) = Some (Select t (CLikeAny (columns meta)) None).
Proof.
  intros Hne. unfold search_sql. rewrite parse_sql_select. unfold parse_select.
  rewrite identifier_quoteIdentifier by done. simpl. unfold parse_where, search_where.
  rewrite app_empty_l.
  destruct (columns meta) as [|c cs] eqn:Hcols; [done|].
  assert (assignment
            (join " OR " (map (λ c, "CAST(" +:+ quoteIdentifier c +:+ " AS TEXT) LIKE ?")
                            (c :: cs))) = None) as ->.
  { destruct cs; reflexivity. }
  rewrite <- (app_empty_r (join _ _)).
  rewrite (items_join cast_like (λ c, "CAST(" +:+ quoteIdentifier c +:+ " AS TEXT) LIKE ?")
             " OR " (λ _, True)); try done.
  intros x r _. apply cast_like_render.
Qed.

Lemma parse_insert_sql (t : string) (keys : list string) :
  keys <> [] ->
  parse_sql (insert_sql t keys) = Some (Insert t keys (length keys)).
Proof.
  intros Hne. unfold insert_sql. rewrite parse_sql_insert. unfold parse_insert.
  rewrite identifier_quoteIdentifier by done. simpl. rewrite app_empty_l.
  rewrite (items_join identifier quoteIdentifier ", " (λ r, no_quote_ahead r = true));
    try done; [|apply identifier_quoteIdentifier].
  simpl. rewrite app_empty_l.
  rewrite <- (map_map (λ _ : string, ()) (λ _ : unit, "?")).
  rewrite (items_join placeholder (λ _ : unit, "?") ", " (λ _, True)); try done.
  - simpl. rewrite length_map. reflexivity.
  - intros. apply placeholder_render.
  - by destruct keys.
Qed.

Lemma parse_update_sql (t : string) (meta : metadata) (keys : list string) :
  keys <> [] ->
  parse_sql (update_sql t meta keys)
  = Some (Update t keys (key_name (primaryKey meta))).
Proof.
  intros Hne. unfold update_sql, where_pk_sql. rewrite parse_sql_update.
  unfold parse_update.
  rewrite identifier_quoteIdentifier by done. simpl. rewrite app_empty_l.
  rewrite (items_join assignment (λ c, quoteIdentifier c +:+ " = ?") ", " (λ _, True));
    try done; [|intros; apply assignment_render].
  simpl. rewrite app_empty_l, assignment_render_end. reflexivity.
Qed.

Lemma parse_delete_sql (t : string) (meta : metadata) :
  parse_sql ("DELETE FROM " +:+ quoteIdentifier t +:+ where_pk_sql meta)
  = Some (Delete t (key_name (primaryKey meta))).
Proof.
  rewrite parse_sql_delete. unfold parse_delete, where_pk_sql.
  rewrite identifier_quoteIdentifier by done. simpl.
  rewrite app_empty_l, assignment_render_end. reflexivity.
Qed.

End sql_text.

(* ===================================================================== *)
(** ** Schema introspection *)
(* ===================================================================== *)

Section introspection.
Import JsString Sqlite Server.
Local Open Scope Z_scope.

Lemma name_of_info_row (i : nat) (c : column) : name_of (info_row i c) = col_name c.
Proof. reflexivity. Qed.

Lemma pk_is_one_info_row (i : nat) (c : column) :
  pk_is_one (info_row i c) = (col_pk c =? 1).
Proof. reflexivity. Qed.

Lemma pk_positive_info_row (i : nat) (c : column) :
  pk_positive (info_row i c) = (0 <? col_pk c).
Proof. reflexivity. Qed.

Lemma find_imap {A B} (f : nat -> A -> B) (p : B -> bool) (q : A -> bool) (g : B -> string)
    (h : A -> string) (l : list A) :
  (forall i a, p (f i a) = q a) -> (forall i a, g (f i a) = h a) ->
  g <$> List.find p (imap f l) = h <$> List.find q l.
Proof.
  intros Hp Hg. revert f Hp Hg. induction l as [|a l IH]; intros f Hp Hg; [done|].
  simpl. rewrite Hp. destruct (q a); simpl; [by rewrite Hg|].
  apply IH; intros; [apply Hp | apply Hg].
Qed.

Lemma map_imap_name (cols : list column) :
  map name_of (imap info_row cols) = map col_name cols.
Proof.
  assert (forall (f : nat -> column -> row),
            (forall i c, name_of (f i c) = col_name c) ->
            map name_of (imap f cols) = map col_name cols) as H.
  { induction cols as [|c cols IH]; intros f Hf; [done|].
    simpl. rewrite Hf. f_equal. apply IH. intros; apply Hf. }
  apply H, name_of_info_row.
Qed.

Lemma resolvePrimaryKey_info (cols : list column) :
  resolvePrimaryKey (imap info_row cols) = key_of_columns cols.
Proof.
  unfold resolvePrimaryKey, key_of_columns.
  rewrite map_imap_name.
  pose proof (find_imap info_row pk_is_one (λ c, col_pk c =? 1) name_of col_name cols
                pk_is_one_info_row name_of_info_row) as H1.
  pose proof (find_imap info_row pk_positive (λ c, 0 <? col_pk c) name_of col_name cols
                pk_positive_info_row name_of_info_row) as H2.
  destruct (List.find pk_is_one (imap info_row cols)) as [r1|],
           (List.find (λ c, col_pk c =? 1) cols) as [c1|]; simplify_eq/=;
    [by f_equal|].
  destruct (List.find pk_positive (imap info_row cols)) as [r2|],
           (List.find (λ c, 0 <? col_pk c) cols) as [c2|]; simplify_eq/=;
    [by f_equal|done].
Qed.

(** What [getTableMetadata] does, in terms of the database: the cache is
    consulted first; a table that is not cached is looked up, and its
    metadata is stored on the way out. *)
Lemma getTableMetadata_cases (t : string) (st : state) :
  getTableMetadata t st =
  if decide (t = EmptyString) then (inl "Table name is required", st)
  else match metadataCache st !! t with
       | Some meta => (inr meta, st)
       | None =>
           match db st !! t with
           | None => (inl ("Table not found: " +:+ t), st)
           | Some tb =>
               match tbl_columns tb with
               | [] => (inl ("No columns found for " +:+ t), st)
               | _ => (inr (meta_of tb),
                       mkState (<[t := meta_of tb]> (metadataCache st)) (db st))
               end
           end
       end.
Proof.
  unfold getTableMetadata.
  destruct t as [|a t']; [done|].
  rewrite decide_False by done.
  generalize (String a t'). clear a t'. intros t.
  destruct (metadataCache st !! t) as [m|]; [done|].
  unfold db_get, db_all. rewrite parse_exists_sql, parse_pragma_sql.
  cbn [query]. destruct (db st !! t) as [tb|]; [|done].
  cbn [head]. unfold meta_of, column_names.
  destruct (tbl_columns tb) as [|c cols] eqn:Hcols; [done|].
  rewrite <- resolvePrimaryKey_info, <- map_imap_name.
  reflexivity.
Qed.

End introspection.

(* ===================================================================== *)
(** ** The metadata cache *)
(* ===================================================================== *)

Section cache.
Import JsString Sqlite Server.
Local Open Scope Z_scope.

Lemma getTableMetadata_keeps (t' t : string) (meta : metadata) (st : state) :
  metadataCache st !! t = Some meta ->
  metadataCache (getTableMetadata t' st).2 !! t = Some meta.
Proof.
  intros Hc. rewrite getTableMetadata_cases.
  repeat case_match; simpl; try done.
  rewrite lookup_insert_ne; [done|]. congruence.
Qed.

Lemma getTableMetadata_db (t : string) (st : state) :
  db (getTableMetadata t st).2 = db st.
Proof. rewrite getTableMetadata_cases. by repeat case_match. Qed.

Lemma handle_keeps (r : request) (t : string) (meta : metadata) (st : state) :
  metadataCache st !! t = Some meta ->
  metadataCache (handle r st).2 !! t = Some meta.
Proof.
  intros Hc.
  destruct r as [t'|t'|t' id|t' b|t' id b|t' id|t' q]; simpl;
    unfold get_meta, get_list, get_one, post_item, put_item, delete_item, search_items;
    pose proof (getTableMetadata_keeps t' t meta st Hc) as Hk;
    destruct (getTableMetadata t' st) as [[err|m] st1]; simpl in Hk;
    repeat case_match; simpl; done.
Qed.

Lemma later_keeps (t : string) (meta : metadata) (st st' : state) :
  later st st' ->
  metadataCache st !! t = Some meta -> metadataCache st' !! t = Some meta.
Proof.
  induction 1 as [|st' r _ IH|st' d _ IH]; intros Hc; [done|..].
  - by apply handle_keeps, IH.
  - by apply IH.
Qed.

(** C2, as the code has it. When [getTableMetadata] resolves a table that is
    not cached yet, the columns are those of the table and [primaryKey] is:
    the column at position 1 of the primary key; if there is none, the first
    column with a position in the key; if no column is flagged, the column
    named id when there is one; otherwise absent.  The metadata is stored in
    the cache under the table name, and every later call for that name
    returns it unchanged, whatever requests were served and however the
    database changed in between. *)
Theorem getTableMetadata_resolves_and_caches
    (t : string) (st st' : state) (meta : metadata) :
  metadataCache st !! t = None ->
  getTableMetadata t st = (inr meta, st') ->
  (exists tb, db st !! t = Some tb /\
              columns meta = column_names tb /\
              primaryKey meta = key_of_columns (tbl_columns tb)) /\
  metadataCache st' !! t = Some meta /\
  (forall st'', later st' st'' -> getTableMetadata t st'' = (inr meta, st'')).
Proof.
  intros Hnone Hget.
  assert (t <> EmptyString) as Hne.
  { intros ->. rewrite getTableMetadata_cases in Hget. done. }
  rewrite getTableMetadata_cases, decide_False, Hnone in Hget by done.
  destruct (db st !! t) as [tb|] eqn:Hdb; [|done].
  destruct (tbl_columns tb) as [|c cols] eqn:Hcols; [done|].
  injection Hget as <- <-.
  assert (metadataCache (mkState (<[t:=meta_of tb]> (metadataCache st)) (db st)) !! t
          = Some (meta_of tb)) as Hin by apply lookup_insert_eq.
  split; [|split; [done|]].
  - exists tb. unfold meta_of. simpl. by rewrite Hcols.
  - intros st'' Hlater.
    rewrite getTableMetadata_cases, decide_False by done.
    by rewrite (later_keeps t (meta_of tb) _ _ Hlater Hin).
Qed.

Lemma getTableMetadata_resolves_and_caches_witness :
  key_of_columns composite_columns = Some "b" /\
  getTableMetadata "pairs"
    (handle (GetList "pairs") (getTableMetadata "pairs" composite_state).2).2
  = (inr (mkMeta ["a"; "b"] (Some "b")),
     (handle (GetList "pairs") (getTableMetadata "pairs" composite_state).2).2).
Proof.
  split; [reflexivity|].
  refine (proj2 (proj2 (getTableMetadata_resolves_and_caches "pairs" composite_state
                          (getTableMetadata "pairs" composite_state).2
                          (mkMeta ["a"; "b"] (Some "b")) _ _)) _ _).
  - reflexivity.
  - vm_compute. reflexivity.
  - apply later_request, later_now.
Defined.

(** C2, counterexample. A table whose key is declared on (b, a), with the
    columns in the order a, b: the engine gives a the position 2 and b the
    position 1.  The first flagged column is a; the code answers b. *)
Lemma composite_key_is_not_first_flagged :
  exists (meta : metadata) (st' : state),
    getTableMetadata "pairs" composite_state = (inr meta, st') /\
    primaryKey meta = Some "b" /\
    spec_primaryKey composite_columns = Some "a" /\
    primaryKey meta <> spec_primaryKey composite_columns.
Proof.
  eexists _, _. split; [vm_compute; reflexivity|].
  repeat split; done.
Qed.

End cache.

(* ===================================================================== *)
(** ** The order of values *)
(* ===================================================================== *)

Section value_order.
Import JsString Sqlite Server.
Local Open Scope Z_scope.

Lemma value_leb_total (a b : value) : value_leb a b \/ value_leb b a.
Proof.
  destruct a as [|x|x], b as [|y|y]; simpl; auto.
  - destruct (Z.leb_spec x y), (Z.leb_spec y x); auto; lia.
  - destruct (String.le_total x y) as [H|H]; [left|right]; by apply bool_decide_pack.
Qed.

Lemma value_leb_trans (a b c : value) : value_leb a b -> value_leb b c -> value_leb a c.
Proof.
  destruct a as [|x|x], b as [|y|y], c as [|z|z]; simpl; try done.
  - intros H1%Is_true_true H2%Is_true_true. apply Is_true_true. lia.
  - intros H1%bool_decide_unpack H2%bool_decide_unpack.
    apply bool_decide_pack. by etrans.
Qed.

Lemma value_leb_antisym (a b : value) : value_leb a b -> value_leb b a -> a = b.
Proof.
  destruct a as [|x|x], b as [|y|y]; simpl; try done.
  - intros H1%Is_true_true H2%Is_true_true. f_equal. lia.
  - intros H1%bool_decide_unpack H2%bool_decide_unpack.
    f_equal. by apply (anti_symm String.le).
Qed.

#[local] Instance desc_by_total (c : string) : Total (desc_by c).
Proof. intros r1 r2. unfold desc_by. apply value_leb_total. Qed.

#[local] Instance desc_by_trans (c : string) : Transitive (desc_by c).
Proof. intros r1 r2 r3 H1 H2. unfold desc_by in *. by eapply value_leb_trans. Qed.

(** The rows [ORDER BY c DESC] gives: the same rows, each followed only by
    rows that are not larger in [c]. *)
Lemma merge_sort_desc (c : string) (rows : list row) :
  merge_sort (desc_by c) rows ≡ₚ rows /\
  StronglySorted (desc_by c) (merge_sort (desc_by c) rows).
Proof.
  split; [apply merge_sort_Permutation | apply (StronglySorted_merge_sort _)].
Qed.

(** Where the column has no value twice, the order is strict. *)
Lemma StronglySorted_strict (c : string) (rows : list row) :
  NoDup (cell c <$> rows) ->
  StronglySorted (desc_by c) rows -> StronglySorted (strictly_desc_by c) rows.
Proof.
  induction rows as [|r rows IH]; intros Hnd Hs; [constructor|].
  rewrite fmap_cons in Hnd. apply NoDup_cons in Hnd as [Hnotin Hnd].
  apply StronglySorted_inv in Hs as [Hs Hall].
  constructor; [by apply IH|].
  rewrite Forall_forall in Hall |- *. intros r' Hr'. split; [by apply Hall|].
  intros Heq. apply Hnotin. rewrite Heq. by apply list_elem_of_fmap_2.
Qed.

End value_order.

(* ===================================================================== *)
(** ** Serving a table *)
(* ===================================================================== *)

Section serving.
Import JsString Sqlite Server.
Local Open Scope Z_scope.

Lemma coherent_empty (d : database) : coherent (mkState ∅ d).
Proof. intros t meta H. simpl in H. by rewrite lookup_empty in H. Qed.

Lemma getTableMetadata_serves (st : state) (t : string) (tb : table) :
  serves st t tb -> getTableMetadata t st = (inr (meta_of tb), cached t tb st).
Proof.
  intros (Hne & Hdb & [Hcols _] & Hco).
  rewrite getTableMetadata_cases, decide_False by done.
  destruct (metadataCache st !! t) as [m|] eqn:Hc.
  - destruct (Hco t m Hc) as (tb' & Hdb' & ->).
    assert (tb' = tb) as -> by congruence.
    unfold cached. rewrite insert_id by done. by destruct st.
  - rewrite Hdb. by destruct (tbl_columns tb).
Qed.

Lemma key_of_columns_named (cols : list column) (k : string) :
  key_of_columns cols = Some k -> k ∈ map col_name cols.
Proof.
  unfold key_of_columns, or_else.
  destruct (List.find (λ c, col_pk c =? 1) cols) as [c|] eqn:H1.
  - intros [= <-]. apply find_some in H1 as [Hin _].
    apply list_elem_of_fmap_2. by apply list_elem_of_In.
  - destruct (List.find (λ c, 0 <? col_pk c) cols) as [c|] eqn:H2.
    + intros [= <-]. apply find_some in H2 as [Hin _].
      apply list_elem_of_fmap_2. by apply list_elem_of_In.
    + case_bool_decide; [|done]. by intros [= <-].
Qed.

Lemma key_name_Some (k : string) : key_name (Some k) = k.
Proof. reflexivity. Qed.

Lemma key_has_column (tb : table) (k : string) :
  primaryKey (meta_of tb) = Some k -> has_column tb k = true.
Proof.
  intros H%key_of_columns_named. by apply bool_decide_eq_true.
Qed.

Lemma key_truthy (tb : table) (k : string) :
  well_formed tb -> primaryKey (meta_of tb) = Some k -> truthy (Some k) = true.
Proof.
  intros [_ Hnames] H%key_of_columns_named.
  apply list_elem_of_fmap in H as (c & -> & Hc).
  specialize (Hnames c Hc). by destruct (col_name c).
Qed.

(** C1, as the code has it. For a table that exists, [GET /api/:table]
    answers 200 with all the rows of the table, an empty array when there are
    none.  With a primary key (flagged by the engine, or a column named id)
    the statement ends in ORDER BY that column DESC and the rows come in
    descending order of it: no row is followed by a row that is larger in the
    key, and the order is strict when no two rows agree on the key.  Without
    a primary key the statement has no ORDER BY and the rows come as the
    engine has them. *)
Theorem get_list_ordered (st : state) (t : string) (tb : table) :
  serves st t tb ->
  exists rows : list row,
    get_list t st = (mkResponse 200 (Rows rows), cached t tb st) /\
    rows ≡ₚ (tbl_rows tb).*2 /\
    (tbl_rows tb = [] -> rows = []) /\
    match primaryKey (meta_of tb) with
    | Some pk =>
        list_sql t (meta_of tb)
        = "SELECT * FROM " +:+ quoteIdentifier t +:+
          " ORDER BY " +:+ quoteIdentifier pk +:+ " DESC" /\
        StronglySorted (desc_by pk) rows /\
        (NoDup (cell pk <$> (tbl_rows tb).*2) -> StronglySorted (strictly_desc_by pk) rows)
    | None =>
        list_sql t (meta_of tb) = "SELECT * FROM " +:+ quoteIdentifier t /\
        rows = (tbl_rows tb).*2
    end.
Proof.
  intros Hs. pose proof Hs as (Hne & Hdb & Hwf & Hco).
  unfold get_list. rewrite (getTableMetadata_serves _ _ _ Hs).
  unfold db_all. rewrite parse_list_sql. cbn [query cached db]. rewrite Hdb.
  unfold list_sql.
  destruct (primaryKey (meta_of tb)) as [pk|] eqn:Hpk.
  - rewrite (key_truthy tb pk Hwf Hpk), !key_name_Some.
    rewrite (key_has_column tb pk Hpk).
    destruct (merge_sort_desc pk (tbl_rows tb).*2) as [Hperm Hsorted].
    eexists. split; [reflexivity|]. split; [done|]. split.
    + intros ->. reflexivity.
    + split; [reflexivity|]. split; [done|].
      intros Hnd. apply StronglySorted_strict; [|done].
      by rewrite Hperm.
  - cbn [truthy]. eexists. split; [reflexivity|]. split; [done|]. split.
    + by intros ->.
    + split; [|done]. by rewrite app_empty_r.
Qed.

Lemma tags_served : serves tags_state "tags" tags.
Proof.
  split; [done|]. split; [reflexivity|]. split; [|apply coherent_empty].
  split; [done|]. intros c Hc. set_unfold. by destruct Hc as [->|[->|[]]].
Defined.

Lemma get_list_ordered_witness :
  exists rows : list row,
    get_list "tags" tags_state = (mkResponse 200 (Rows rows), cached "tags" tags tags_state) /\
    rows ≡ₚ (tbl_rows tags).*2 /\
    (tbl_rows tags = [] -> rows = []) /\
    match primaryKey (meta_of tags) with
    | Some pk =>
        list_sql "tags" (meta_of tags)
        = "SELECT * FROM " +:+ quoteIdentifier "tags" +:+
          " ORDER BY " +:+ quoteIdentifier pk +:+ " DESC" /\
        StronglySorted (desc_by pk) rows /\
        (NoDup (cell pk <$> (tbl_rows tags).*2) -> StronglySorted (strictly_desc_by pk) rows)
    | None =>
        list_sql "tags" (meta_of tags) = "SELECT * FROM " +:+ quoteIdentifier "tags" /\
        rows = (tbl_rows tags).*2
    end.
Proof. exact (get_list_ordered tags_state "tags" tags tags_served). Defined.

(** C1, counterexample. The table of tags has the primary key id, by its
    name; the list comes back with the two tags, which agree on id: the
    order is not strict. *)
Lemma get_list_not_strictly_ordered :
  primaryKey (meta_of tags) = Some "id" /\
  (get_list "tags" tags_state).1 = mkResponse 200 (Rows [tag_x; tag_y]) /\
  ~ Sorted (strictly_desc_by "id") [tag_x; tag_y].
Proof.
  split; [reflexivity|]. split; [vm_compute; reflexivity|].
  intros H. apply Sorted_inv in H as [_ H]. apply HdRel_inv in H as [_ H].
  by apply H.
Qed.

End serving.

(* ===================================================================== *)
(** ** LIKE *)
(* ===================================================================== *)

Section like_facts.
Import JsString Sqlite.







End like_facts.

(* ===================================================================== *)
(** ** Search *)
(* ===================================================================== *)

Section search_facts.
Import JsString Sqlite Server.
Local Open Scope Z_scope.







(** Searching AL among Alpha and beta gives Alpha alone. *)
Lemma search_AL_example :
  (search_items "names" "AL" names_state).1 = mkResponse 200 (Rows [alpha]).
Proof. vm_compute. reflexivity. Qed.


End search_facts.

(* ===================================================================== *)
(** ** Writing rows *)
(* ===================================================================== *)

Section writing.
Import JsString Sqlite Server.
Local Open Scope Z_scope.

Lemma writable_keys_spec (meta : metadata) (body : row) (k : string) :
  k ∈ writable_keys meta body <->
  k ∈ columns meta /\ Some k <> primaryKey meta /\ is_Some (body !! k).
Proof.
  unfold writable_keys. rewrite list_elem_of_In, !filter_In, <- list_elem_of_In.
  unfold is_not, hasOwnProperty.
  rewrite negb_true_iff, bool_decide_eq_false, bool_decide_eq_true. tauto.
Qed.

Lemma lookup_fromEntries (keys : list string) (f : string -> value) (k : string) :
  fromEntries keys (map f keys) !! k = if decide (k ∈ keys) then Some (f k) else None.
Proof.
  unfold fromEntries. induction keys as [|k0 keys IH]; [done|].
  cbn [map zip zip_with list_to_map foldr]. 
  destruct (decide (k0 = k)) as [->|Hne].
  - rewrite lookup_insert_eq, decide_True; [done|]. by left.
  - rewrite lookup_insert_ne, IH by done.
    destruct (decide (k ∈ keys)) as [Hin|Hnin].
    + rewrite decide_True; [done|]. by right.
    + rewrite decide_False; [done|]. intros [?|?]%elem_of_cons; done.
Qed.

(** The object the write echoes is the part of the body that was sent. *)
Lemma fromEntries_sent (meta : metadata) (body : row) :
  let keys := writable_keys meta body in
  fromEntries keys (map (λ k, cell k body) keys) = sent meta body.
Proof.
  intros keys. apply map_eq. intros k. rewrite lookup_fromEntries.
  apply option_eq. intros v. unfold sent. rewrite map_lookup_filter_Some. simpl.
  destruct (decide (k ∈ keys)) as [Hin|Hnin].
  - apply writable_keys_spec in Hin as (Hc & Hpk & [w Hw]).
    unfold cell. rewrite Hw. simpl. split; [by intros [= <-]|by intros [[= <-] _]].
  - split; [done|]. intros [Hv [Hc Hpk]]. destruct Hnin.
    apply writable_keys_spec. eauto.
Qed.

Lemma find_head_filter {A} (p : A -> bool) (l : list A) :
  List.find p l = head (filter (λ x, p x) l).
Proof.
  induction l as [|a l IH]; [done|]. simpl. rewrite filter_cons.
  destruct (p a) eqn:E.
  - by rewrite decide_True by done.
  - rewrite decide_False; [done|exact id].
Qed.

(** The alias of the rowid is the primary key the metadata names. *)
Lemma rowid_alias_is_key (tb : table) (a : string) :
  rowid_alias tb = Some a -> primaryKey (meta_of tb) = Some a.
Proof.
  unfold rowid_alias. simpl. unfold key_of_columns, or_else.
  destruct (filter (λ c, 0 < col_pk c) (tbl_columns tb)) as [|c [|c' l]] eqn:Hf; try done.
  case_match; [|done]. intros [= <-].
  assert (List.find (λ c, 0 <? col_pk c) (tbl_columns tb) = Some c) as H2.
  { rewrite find_head_filter.
    erewrite (list_filter_iff _ (λ c, 0 < col_pk c)); [by rewrite Hf|].
    intros x. rewrite Is_true_true. apply Z.ltb_lt. }
  destruct (List.find (λ c, col_pk c =? 1) (tbl_columns tb)) as [c1|] eqn:H1.
  - apply find_some in H1 as [Hin H1]. apply Z.eqb_eq in H1.
    assert (c1 ∈ filter (λ c, 0 < col_pk c) (tbl_columns tb)) as Hc1.
    { apply list_elem_of_filter. split; [lia|by apply list_elem_of_In]. }
    rewrite Hf in Hc1. apply list_elem_of_singleton in Hc1 as ->. done.
  - by rewrite H2.
Qed.

Lemma writes_rowid_writable (tb : table) (body : row) :
  writes_rowid tb (writable_keys (meta_of tb) body) = false.
Proof.
  unfold writes_rowid. destruct (rowid_alias tb) as [a|] eqn:Ha; [|done].
  apply bool_decide_eq_false. intros (_ & Hpk & _)%writable_keys_spec.
  by rewrite (rowid_alias_is_key tb a Ha) in Hpk.
Qed.

Lemma writable_keys_columns (tb : table) (body : row) :
  forallb (has_column tb) (writable_keys (meta_of tb) body) = true.
Proof.
  apply forallb_forall. intros k Hk. apply bool_decide_eq_true.
  apply list_elem_of_In in Hk. by apply writable_keys_spec in Hk as (Hc & _).
Qed.

Lemma lookup_cells (f : string -> value) (l : list string) (k : string) :
  (list_to_map (map (λ c, (c, f c)) l) : row) !! k
  = if decide (k ∈ l) then Some (f k) else None.
Proof.
  induction l as [|k0 l IH]; [done|].
  cbn [map list_to_map foldr].
  destruct (decide (k0 = k)) as [->|Hne].
  - rewrite lookup_insert_eq, decide_True; [done|]. by left.
  - rewrite lookup_insert_ne, IH by done.
    destruct (decide (k ∈ l)) as [Hin|Hnin].
    + rewrite decide_True; [done|]. by right.
    + rewrite decide_False; [done|]. intros [?|?]%elem_of_cons; done.
Qed.

(** The row an insert stores holds the fields that were sent. *)
Lemma new_row_sent (tb : table) (body : row) (rowid : Z) (k : string) :
  k ∈ writable_keys (meta_of tb) body ->
  new_row tb (sent (meta_of tb) body) rowid !! k = body !! k.
Proof.
  intros Hk. pose proof Hk as (Hc & Hpk & [v Hv])%writable_keys_spec.
  assert (sent (meta_of tb) body !! k = Some v) as Hsent.
  { unfold sent. by apply map_lookup_filter_Some. }
  assert ((list_to_map (map (λ c, (c, cell c (sent (meta_of tb) body))) (column_names tb))
           : row) !! k = Some v) as Hcells.
  { rewrite lookup_cells, decide_True by done. unfold cell. by rewrite Hsent. }
  unfold new_row. destruct (rowid_alias tb) as [a|] eqn:Ha.
  - rewrite lookup_insert_ne; [by rewrite Hcells, Hv|].
    intros ->. by rewrite (rowid_alias_is_key tb k Ha) in Hpk.
  - by rewrite Hcells, Hv.
Qed.

(** A column that was not sent, and is not the rowid, is null in it. *)
Lemma new_row_other (tb : table) (body : row) (rowid : Z) (k : string) :
  k ∈ column_names tb -> k ∉ writable_keys (meta_of tb) body ->
  rowid_alias tb <> Some k ->
  new_row tb (sent (meta_of tb) body) rowid !! k = Some VNull.
Proof.
  intros Hcol Hk Ha.
  assert (sent (meta_of tb) body !! k = None) as Hsent.
  { unfold sent. apply map_lookup_filter_None. right. intros v Hv [Hc Hpk].
    apply Hk, writable_keys_spec. eauto. }
  assert ((list_to_map (map (λ c, (c, cell c (sent (meta_of tb) body))) (column_names tb))
           : row) !! k = Some VNull) as Hcells.
  { rewrite lookup_cells, decide_True by done. unfold cell. by rewrite Hsent. }
  unfold new_row. destruct (rowid_alias tb) as [a|] eqn:Haa; [|done].
  rewrite lookup_insert_ne; [done|]. congruence.
Qed.

Lemma new_row_alias (tb : table) (given : row) (rowid : Z) (a : string) :
  rowid_alias tb = Some a -> new_row tb given rowid !! a = Some (VInt rowid).
Proof. intros Ha. unfold new_row. rewrite Ha. apply lookup_insert_eq. Qed.

Lemma post_item_none (st : state) (t : string) (tb : table) (body : row) :
  serves st t tb -> writable_keys (meta_of tb) body = [] ->
  post_item t body st
  = (mkResponse 400 (Text "No valid columns provided in request body"), cached t tb st).
Proof.
  intros Hs Hkeys. unfold post_item.
  by rewrite (getTableMetadata_serves _ _ _ Hs), Hkeys.
Qed.

Lemma post_item_some (st : state) (t : string) (tb : table) (body : row) :
  serves st t tb -> writable_keys (meta_of tb) body <> [] ->
  let meta := meta_of tb in
  let rowid := next_rowid tb in
  post_item t body st
  = (mkResponse 201
       (Object (if truthy (primaryKey meta)
                then <[key_name (primaryKey meta) := VInt rowid]> (sent meta body)
                else sent meta body)),
     appended t tb rowid (new_row tb (sent meta body) rowid) st).
Proof.
  intros Hs Hkeys meta rowid. pose proof Hs as (Hne & Hdb & Hwf & Hco).
  unfold post_item. rewrite (getTableMetadata_serves _ _ _ Hs).
  fold meta.
  pose proof (fromEntries_sent meta body) as Hsent. cbv zeta in Hsent.
  pose proof (writes_rowid_writable tb body) as Hrowid.
  pose proof (writable_keys_columns tb body) as Hcols.
  pose proof (parse_insert_sql t (writable_keys meta body) Hkeys) as Hparse.
  fold meta in Hrowid, Hcols.
  destruct (writable_keys meta body) as [|k keys] eqn:Hk; [done|].
  unfold db_run. rewrite Hparse. cbn [execute cached db]. rewrite Hdb.
  rewrite length_map, Nat.eqb_refl, Hcols, Hrowid. cbn [andb negb].
  rewrite Hsent. unfold fromEntries in Hsent. rewrite Hsent.
  reflexivity.
Qed.

Lemma sent_spec (meta : metadata) (body : row) (k : string) (v : value) :
  sent meta body !! k = Some v <-> k ∈ writable_keys meta body /\ body !! k = Some v.
Proof.
  unfold sent. rewrite map_lookup_filter_Some, writable_keys_spec. simpl. split.
  - intros (Hb & Hc & Hp). by eauto 6.
  - intros ((Hc & Hp & _) & Hb). done.
Qed.

(** C3, as the code has it. [POST /api/:table], once the metadata of the
    table is resolved, takes from the body the keys that name a column of
    the table other than its primary key, and no others.  With no such key
    it answers 400 and hands nothing to the engine.  Otherwise it hands the
    engine one INSERT on exactly those columns, bound to their values in the
    body.  When the engine reports an error the answer is 500; when it
    reports success the answer is 201 with the pairs that were sent and,
    when the table has a primary key, the row id the engine assigned under
    the name of the key; when it has none, nothing is added. *)
Theorem post_item_writes_sent_fields
    (st st' : state) (t : string) (meta : metadata) (body : row) :
  getTableMetadata t st = (inr meta, st') ->
  let keys := writable_keys meta body in
  let values := map (λ k, cell k body) keys in
  (forall k, k ∈ keys <->
             k ∈ columns meta /\ Some k <> primaryKey meta /\ is_Some (body !! k)) /\
  (keys = [] ->
     post_item t body st
     = (mkResponse 400 (Text "No valid columns provided in request body"), st')) /\
  (keys <> [] ->
     parse_sql (insert_sql t keys) = Some (Insert t keys (length keys)) /\
     post_item t body st
     = match db_run (db st') (insert_sql t keys) values with
       | SqlError _ => (mkResponse 500 (Text "Internal server error"), st')
       | SqlOk (d, this) =>
           (mkResponse 201
              (Object (if truthy (primaryKey meta)
                       then <[key_name (primaryKey meta) := VInt (lastID this)]>
                              (sent meta body)
                       else sent meta body)),
            mkState (metadataCache st') d)
       end /\
     (forall k v, sent meta body !! k = Some v <-> k ∈ keys /\ body !! k = Some v)).
Proof.
  intros Hm keys values.
  split; [intros k; apply writable_keys_spec|].
  pose proof (fromEntries_sent meta body) as Hsent. cbv zeta in Hsent.
  fold keys in Hsent. fold values in Hsent.
  split.
  - intros Hk. unfold post_item. rewrite Hm. fold keys. by rewrite Hk.
  - intros Hk. split; [by apply parse_insert_sql|]. split; [|apply sent_spec].
    unfold post_item. rewrite Hm. fold keys. fold values.
    destruct keys as [|k ks]; [done|].
    destruct (db_run _ _ _) as [e|[d this]]; [done|]. by rewrite Hsent.
Qed.

Lemma post_item_writes_sent_fields_witness :
  writable_keys (meta_of items_table) gamma = ["name"] /\
  (post_item "items" gamma items_state).1
  = mkResponse 201 (Object {[ "id" := VInt 3; "name" := VText "gamma" ]}) /\
  (post_item "items" {[ "colour" := VText "red" ]} items_state).1
  = mkResponse 400 (Text "No valid columns provided in request body").
Proof.
  split; [reflexivity|]. split.
  - destruct (post_item_writes_sent_fields items_state
                (getTableMetadata "items" items_state).2 "items" (meta_of items_table) gamma)
      as (_ & _ & H); [reflexivity|].
    destruct H as (_ & Hpost & _); [vm_compute; discriminate|].
    rewrite Hpost. vm_compute. reflexivity.
  - destruct (post_item_writes_sent_fields items_state
                (getTableMetadata "items" items_state).2 "items" (meta_of items_table)
                {[ "colour" := VText "red" ]})
      as (_ & H & _); [reflexivity|].
    rewrite H; [reflexivity|]. vm_compute. reflexivity.
Defined.

(** C3, counterexample. The table of names has no primary key.  A row is
    posted to it: the answer is 201 with the pair that was sent, name, and
    nothing else; no row id is in it. *)
Lemma post_item_adds_no_key_without_primary_key :
  primaryKey (meta_of names) = None /\
  (post_item "names" gamma names_state).1
  = mkResponse 201 (Object {[ "name" := VText "gamma" ]}) /\
  forall (k : string) (n : Z), ({[ "name" := VText "gamma" ]} : row) !! k <> Some (VInt n).
Proof.
  split; [reflexivity|]. split; [vm_compute; reflexivity|].
  intros k n. destruct (decide (k = "name")) as [->|Hne].
  - by rewrite lookup_singleton_eq.
  - by rewrite lookup_singleton_ne.
Qed.

(** C10, as the code has it. For a table whose metadata has no primary key,
    a POST with at least one key that names a column is not refused: one
    INSERT on those columns is handed to the engine.  When the engine reports
    success the answer is 201 with exactly the pairs of the body whose key
    names a column, no key field added; when it reports an error the answer
    is 500.  On the same table the single-row GET, PUT and DELETE answer
    400. *)
Theorem post_item_without_primary_key
    (st st' : state) (t : string) (meta : metadata) (body : row) :
  getTableMetadata t st = (inr meta, st') ->
  primaryKey meta = None ->
  writable_keys meta body <> [] ->
  let keys := writable_keys meta body in
  let values := map (λ k, cell k body) keys in
  parse_sql (insert_sql t keys) = Some (Insert t keys (length keys)) /\
  post_item t body st
  = match db_run (db st') (insert_sql t keys) values with
    | SqlError _ => (mkResponse 500 (Text "Internal server error"), st')
    | SqlOk (d, this) =>
        (mkResponse 201 (Object (sent meta body)), mkState (metadataCache st') d)
    end /\
  (forall k v, sent meta body !! k = Some v <->
               body !! k = Some v /\ k ∈ columns meta) /\
  (forall id, get_one t id st
              = (mkResponse 400 (Text "Primary key not found for this table"), st')) /\
  (forall id body', put_item t id body' st
                    = (mkResponse 400 (Text "Primary key not found for this table"), st')) /\
  (forall id, delete_item t id st
              = (mkResponse 400 (Text "Primary key not found for this table"), st')).
Proof.
  intros Hm Hpk Hk keys values.
  pose proof (fromEntries_sent meta body) as Hsent. cbv zeta in Hsent.
  fold keys in Hsent. fold values in Hsent. fold keys in Hk.
  split; [by apply parse_insert_sql|]. split; [|split; [|split; [|split]]].
  - unfold post_item. rewrite Hm. fold keys. fold values. rewrite Hpk.
    destruct keys as [|k ks]; [done|].
    destruct (db_run _ _ _) as [e|[d this]]; [done|]. by rewrite Hsent.
  - intros k v. unfold sent. rewrite map_lookup_filter_Some, Hpk. simpl.
    split; [intros (? & ? & _); done | intros [? ?]; done].
  - intros id. unfold get_one. by rewrite Hm, Hpk.
  - intros id body'. unfold put_item. by rewrite Hm, Hpk.
  - intros id. unfold delete_item. by rewrite Hm, Hpk.
Qed.

Lemma post_item_without_primary_key_witness :
  (post_item "names" gamma names_state).1
  = mkResponse 201 (Object (sent (meta_of names) gamma)) /\
  (put_item "names" "1" gamma names_state).1
  = mkResponse 400 (Text "Primary key not found for this table").
Proof.
  destruct (post_item_without_primary_key names_state
              (getTableMetadata "names" names_state).2 "names" (meta_of names) gamma)
    as (_ & Hpost & _ & _ & Hput & _).
  - reflexivity.
  - reflexivity.
  - vm_compute. discriminate.
  - split; [by rewrite Hpost | by rewrite Hput].
Defined.

(** C10, counterexample. The metadata of the table of names, which has no
    primary key, is in the cache, and the column of the table has since been
    renamed.  A POST with the key name, a column by the metadata, is
    answered 500: no row is inserted. *)
Lemma post_item_fails_when_engine_refuses :
  getTableMetadata "names" renamed_names_state
  = (inr (meta_of names), renamed_names_state) /\
  primaryKey (meta_of names) = None /\
  writable_keys (meta_of names) gamma = ["name"] /\
  post_item "names" gamma renamed_names_state
  = (mkResponse 500 (Text "Internal server error"), renamed_names_state).
Proof. repeat split; vm_compute; reflexivity. Qed.

Lemma updated_rows_none (hit : row -> bool) (given : row) (rows : list (Z * row)) :
  Forall (λ r, hit r = false) rows.*2 -> updated_rows hit given rows = rows.
Proof.
  unfold updated_rows. induction rows as [|[i r] rows IH]; [done|].
  rewrite fmap_cons, Forall_cons. intros [Hr Hrows]. simpl in *.
  by rewrite Hr, IH.
Qed.

Lemma count_hits (hit : row -> bool) (rows : list (Z * row)) :
  (Forall (λ r, hit r = false) rows.*2 ->
   length (filter (λ ir : Z * row, hit ir.2) rows) = 0%nat) /\
  (Exists (λ r, hit r = true) rows.*2 ->
   length (filter (λ ir : Z * row, hit ir.2) rows) <> 0%nat).
Proof.
  induction rows as [|[i r] rows [IH1 IH2]]; [split; [done|by intros ?%Exists_nil]|].
  rewrite fmap_cons, filter_cons. simpl. split.
  - intros [Hr Hrows]%Forall_cons. rewrite Hr. rewrite decide_False by exact id. auto.
  - intros [Hr|Hrows]%Exists_cons.
    + rewrite Hr. by rewrite decide_True by done.
    + destruct (hit r); [by rewrite decide_True by done|].
      rewrite decide_False by exact id. auto.
Qed.

Lemma rewritten_same (t : string) (tb : table) (st : state) :
  db st !! t = Some tb -> rewritten t tb (tbl_rows tb) st = cached t tb st.
Proof.
  intros Hdb. unfold rewritten, cached. f_equal.
  apply insert_id. rewrite Hdb. by destruct tb.
Qed.

Lemma take_map_app {A B} (f : A -> B) (l : list A) (rest : list B) :
  take (length l) (map f l ++ rest) = map f l.
Proof. rewrite <- (length_map f l). apply take_app_length. Qed.

(** What the update route does on a table with a primary key, given keys to
    write. *)
Lemma put_item_some (st : state) (t : string) (tb : table) (id pk : string) (body : row) :
  serves st t tb -> primaryKey (meta_of tb) = Some pk ->
  writable_keys (meta_of tb) body <> [] ->
  let meta := meta_of tb in
  let hit (r : row) := sql_eq (cell pk r) (VText id) in
  put_item t id body st
  = (if (Z.of_nat (length (filter (λ ir : Z * row, hit ir.2) (tbl_rows tb))) =? 0)
     then mkResponse 404 (Text "Item not found")
     else mkResponse 200 (Object (<[pk := VText id]> (sent meta body))),
     rewritten t tb (updated_rows hit (sent meta body) (tbl_rows tb)) st).
Proof.
  intros Hs Hpk Hkeys meta hit. pose proof Hs as (Hne & Hdb & Hwf & Hco).
  unfold put_item. rewrite (getTableMetadata_serves _ _ _ Hs).
  fold meta. fold meta in Hpk. rewrite Hpk, (key_truthy tb pk Hwf Hpk), key_name_Some.
  cbn [negb].
  pose proof (fromEntries_sent meta body) as Hsent. cbv zeta in Hsent.
  pose proof (writes_rowid_writable tb body) as Hrowid.
  pose proof (writable_keys_columns tb body) as Hcols.
  pose proof (parse_update_sql t meta (writable_keys meta body) Hkeys) as Hparse.
  fold meta in Hrowid, Hcols. rewrite Hpk, key_name_Some in Hparse.
  destruct (writable_keys meta body) as [|k keys] eqn:Hk; [done|].
  unfold db_run. rewrite Hparse. cbn [execute cached db]. rewrite Hdb.
  rewrite length_app, length_map, Nat.add_1_r, Nat.eqb_refl. cbn [negb].
  change (forallb (has_column tb) (pk :: k :: keys))
    with (has_column tb pk && forallb (has_column tb) (k :: keys)).
  rewrite (key_has_column tb pk Hpk), Hcols, Hrowid. cbn [andb negb].
  rewrite take_map_app, last_snoc.
  change (default VNull (Some (VText id))) with (VText id). cbn [changes].
  unfold assign. rewrite Hsent. unfold fromEntries in Hsent. rewrite ?Hsent.
  fold hit. unfold rewritten, updated_rows.
  by destruct (Z.of_nat _ =? 0).
Qed.

Lemma filter_none_length {A} (P : A -> bool) (l : list A) :
  length (filter (λ x, P x) l) = 0%nat -> Forall (λ x, P x = false) l.
Proof.
  induction l as [|a l IH]; [constructor|].
  rewrite filter_cons. destruct (decide (P a)) as [Ha|Ha]; [done|].
  intros Hl. constructor; [by apply Is_true_false|by apply IH].
Qed.

(** An update that the engine reports as having changed no row leaves the
    database as it was. *)
Lemma db_run_update_unchanged (d d' : database) (sql t w : string) (cols : list string)
    (params : list value) (info : run_info) :
  parse_sql sql = Some (Update t cols w) ->
  db_run d sql params = SqlOk (d', info) -> changes info = 0 -> d' = d.
Proof.
  intros Hp Hrun H0. unfold db_run in Hrun. rewrite Hp in Hrun. cbn [execute] in Hrun.
  destruct (d !! t) as [tb|] eqn:Hd; [|done].
  repeat case_match; try done. injection Hrun as <- <-. cbn [changes] in H0.
  apply (f_equal Z.to_nat) in H0. rewrite Nat2Z.id in H0. change (Z.to_nat 0) with 0%nat in H0.
  apply (filter_none_length
           (λ ir : Z * row, sql_eq (cell w ir.2) (default VNull (last params)))) in H0.
  rewrite <- (insert_id d t tb Hd) at 2. f_equal. destruct tb as [tcols rows]. f_equal.
  cbn [tbl_rows tbl_columns] in *. clear -H0.
  induction H0 as [|ir rows Hir _ IH]; [done|]. cbn [map]. by rewrite Hir, IH.
Qed.

(** C4, as the code has it. [PUT /api/:table/:id], once the metadata of the
    table is resolved, answers 400 when the table has no primary key, and
    400 when the body names no column that can be updated.  With a key and
    something to update it hands the engine one UPDATE of exactly those
    columns, bound to their values in the body, on the rows whose key equals
    the id.  When the engine reports an error the answer is 500; when it
    reports that no row was changed the answer is 404, and then the database
    is as it was; otherwise the answer is 200 with the pairs that were sent
    and the id under the name of the key. *)
Theorem put_item_statuses
    (st st' : state) (t : string) (meta : metadata) (id : string) (body : row) :
  getTableMetadata t st = (inr meta, st') ->
  let keys := writable_keys meta body in
  let values := map (λ k, cell k body) keys in
  let sql := update_sql t meta keys in
  (truthy (primaryKey meta) = false ->
     put_item t id body st
     = (mkResponse 400 (Text "Primary key not found for this table"), st')) /\
  (truthy (primaryKey meta) = true ->
     (keys = [] ->
        put_item t id body st
        = (mkResponse 400 (Text "No updatable columns provided in request body"), st')) /\
     (keys <> [] ->
        parse_sql sql = Some (Update t keys (key_name (primaryKey meta))) /\
        put_item t id body st
        = match db_run (db st') sql (values ++ [VText id]) with
          | SqlError _ => (mkResponse 500 (Text "Internal server error"), st')
          | SqlOk (d, this) =>
              (if changes this =? 0 then mkResponse 404 (Text "Item not found")
               else mkResponse 200
                      (Object (<[key_name (primaryKey meta) := VText id]> (sent meta body))),
               mkState (metadataCache st') d)
          end /\
        (forall d this,
           db_run (db st') sql (values ++ [VText id]) = SqlOk (d, this) ->
           changes this = 0 -> d = db st'))).
Proof.
  intros Hm keys values sql.
  pose proof (fromEntries_sent meta body) as Hsent. cbv zeta in Hsent.
  fold keys in Hsent. fold values in Hsent.
  split.
  { intros Hpk. unfold put_item. by rewrite Hm, Hpk. }
  intros Hpk. split.
  { intros Hk. unfold put_item. rewrite Hm, Hpk. fold keys. by rewrite Hk. }
  intros Hk.
  pose proof (parse_update_sql t meta keys Hk) as Hparse. fold sql in Hparse.
  split; [done|]. split.
  - unfold put_item. rewrite Hm, Hpk. fold keys. fold values. fold sql.
    cbn [negb]. clearbody sql. destruct keys as [|k ks]; [done|].
    destruct (db_run _ _ _) as [e|[d this]]; [done|].
    rewrite Hsent. by destruct (changes this =? 0).
  - intros d this Hrun H0. by apply (db_run_update_unchanged _ _ _ _ _ _ _ _ Hparse Hrun).
Qed.

Lemma items_served : serves items_state "items" items_table.
Proof.
  split; [done|]. split; [reflexivity|]. split; [|apply coherent_empty].
  split; [done|]. intros c Hc. set_unfold. by destruct Hc as [->|[->|[]]].
Defined.

Lemma put_item_statuses_witness :
  (put_item "items" "2" {[ "name" := VText "delta" ]} items_state).1
  = mkResponse 200 (Object {[ "id" := VText "2"; "name" := VText "delta" ]}) /\
  (put_item "items" "9" {[ "name" := VText "delta" ]} items_state).1
  = mkResponse 404 (Text "Item not found").
Proof.
  split.
  - destruct (put_item_statuses items_state (getTableMetadata "items" items_state).2
                "items" (meta_of items_table) "2" {[ "name" := VText "delta" ]})
      as [_ H]; [reflexivity|].
    destruct (H eq_refl) as [_ H2].
    destruct H2 as (_ & Hput & _); [vm_compute; discriminate|].
    rewrite Hput. vm_compute. reflexivity.
  - destruct (put_item_statuses items_state (getTableMetadata "items" items_state).2
                "items" (meta_of items_table) "9" {[ "name" := VText "delta" ]})
      as [_ H]; [reflexivity|].
    destruct (H eq_refl) as [_ H2].
    destruct H2 as (_ & Hput & _); [vm_compute; discriminate|].
    rewrite Hput. vm_compute. reflexivity.
Defined.

(** C4, counterexample. The metadata of the table of items is in the cache
    and its column name has since been renamed.  The table has a primary
    key, the body names a column that can be updated by the metadata, and
    the row of id 1 is there; the answer is neither 400 nor 404 nor 200 but
    500, and nothing is changed. *)
Lemma put_item_fails_when_engine_refuses :
  getTableMetadata "items" relabelled_items_state
  = (inr (meta_of items_table), relabelled_items_state) /\
  primaryKey (meta_of items_table) = Some "id" /\
  writable_keys (meta_of items_table) {[ "name" := VText "delta" ]} = ["name"] /\
  put_item "items" "1" {[ "name" := VText "delta" ]} relabelled_items_state
  = (mkResponse 500 (Text "Internal server error"), relabelled_items_state).
Proof. repeat split; vm_compute; reflexivity. Qed.

(** An update that finds its row: 200, the id echoed, the row rewritten. *)
Lemma put_item_example :
  (put_item "items" "2" {[ "name" := VText "delta" ]} items_state).1
  = mkResponse 200 (Object {[ "id" := VText "2"; "name" := VText "delta" ]}) /\
  db (put_item "items" "2" {[ "name" := VText "delta" ]} items_state).2 !! "items"
  = Some (mkTable (tbl_columns items_table)
            [(1, item_1); (2, {[ "id" := VInt 2; "name" := VText "delta" ]})]).
Proof. split; vm_compute; reflexivity. Qed.

End writing.

(* ===================================================================== *)
(** ** The cache stays coherent *)
(* ===================================================================== *)

Section invariant.
Import JsString Sqlite Server.
Local Open Scope Z_scope.

Lemma meta_of_columns (tb tb' : table) :
  tbl_columns tb' = tbl_columns tb -> meta_of tb' = meta_of tb.
Proof. intros H. unfold meta_of, column_names. by rewrite H. Qed.

(** A write keeps every table, with its columns. *)
Lemma execute_columns (d d' : database) (st : statement) (params : list value)
    (info : run_info) (t : string) (tb : table) :
  execute d st params = SqlOk (d', info) -> d !! t = Some tb ->
  exists tb', d' !! t = Some tb' /\ tbl_columns tb' = tbl_columns tb.
Proof.
  intros Hex Hdb.
  destruct st as [|t0|t0 w o|t0 cols n|t0 cols w|t0 w]; simpl in Hex; try done;
    repeat case_match; simplify_eq;
    (destruct (decide (t0 = t)) as [->|Hne];
     [ rewrite lookup_insert_eq; eexists; split; [done|]; simpl; congruence
     | rewrite lookup_insert_ne by done; eauto ]).
Qed.

Lemma coherent_db_run (st : state) (sql : string) (params : list value)
    (d' : database) (info : run_info) :
  coherent st -> db_run (db st) sql params = SqlOk (d', info) ->
  coherent (mkState (metadataCache st) d').
Proof.
  intros Hco Hrun t meta Hc. simpl in *.
  destruct (Hco t meta Hc) as (tb & Hdb & ->).
  unfold db_run in Hrun. destruct (parse_sql sql) as [stmt|]; [|done].
  destruct (execute_columns _ _ _ _ _ t tb Hrun Hdb) as (tb' & Hdb' & Hcols).
  exists tb'. split; [done|]. symmetry. by apply meta_of_columns.
Qed.

Lemma getTableMetadata_coherent (t : string) (st : state) :
  coherent st -> coherent (getTableMetadata t st).2.
Proof.
  intros Hco. rewrite getTableMetadata_cases.
  repeat case_match; simpl; try done.
  intros t' meta. simpl. destruct (decide (t = t')) as [->|Hne].
  - rewrite lookup_insert_eq. intros [= <-]. eauto.
  - rewrite lookup_insert_ne by done. apply Hco.
Qed.

(** Serving a request keeps the cache coherent with the database. *)
Lemma handle_coherent (r : request) (st : state) :
  coherent st -> coherent (handle r st).2.
Proof.
  intros Hco.
  destruct r as [t|t|t id|t b|t id b|t id|t q]; simpl;
    unfold get_meta, get_list, get_one, post_item, put_item, delete_item, search_items;
    pose proof (getTableMetadata_coherent t st Hco) as Hco1;
    destruct (getTableMetadata t st) as [[err|m] st1]; simpl in Hco1;
    repeat case_match; simpl; try done;
    eapply coherent_db_run; eauto.
Qed.

Lemma serve_coherent (rs : list request) (st : state) :
  coherent st -> coherent (serve rs st).
Proof.
  revert st. induction rs as [|r rs IH]; intros st Hco; [done|].
  simpl. by apply IH, handle_coherent.
Qed.

(** X23. A process that starts with an empty cache and whose database is
    changed by its own requests only is coherent all along: whatever is
    cached for a name is the metadata of the table the database has under
    that name. *)
Corollary serve_from_start (rs : list request) (d : database) :
  coherent (serve rs (mkState ∅ d)).
Proof. apply serve_coherent, coherent_empty. Qed.

End invariant.

(* ===================================================================== *)
(** ** Patterns *)
(* ===================================================================== *)

Section regex_facts.
Import JsString JsRegExp Validation.

Lemma in_lang_never (s : list ascii) : ~ in_lang Never s.
Proof. intros H. inversion H. Qed.

Lemma in_lang_empty (s : list ascii) : in_lang Empty s <-> s = [].
Proof. split; [intros H; by inversion H | intros ->; constructor]. Qed.

Lemma in_lang_class (p : ascii -> bool) (s : list ascii) :
  in_lang (Class p) s <-> exists c, s = [c] /\ p c = true.
Proof.
  split.
  - intros H. inversion H; subst. eauto.
  - intros (c & -> & Hc). by constructor.
Qed.

Lemma in_lang_seq (r1 r2 : regex) (s : list ascii) :
  in_lang (Seq r1 r2) s <->
  exists s1 s2, s = s1 ++ s2 /\ in_lang r1 s1 /\ in_lang r2 s2.
Proof.
  split.
  - intros H. inversion H; subst. eauto.
  - intros (s1 & s2 & -> & H1 & H2). by constructor.
Qed.

Lemma in_lang_alt (r1 r2 : regex) (s : list ascii) :
  in_lang (Alt r1 r2) s <-> in_lang r1 s \/ in_lang r2 s.
Proof.
  split.
  - intros H. inversion H; subst; auto.
  - intros [H|H]; [by apply in_alt_l | by apply in_alt_r].
Qed.

Lemma in_lang_star_cons (r : regex) (c : ascii) (s : list ascii) :
  in_lang (Star r) (c :: s) ->
  exists s1 s2, s = s1 ++ s2 /\ in_lang r (c :: s1) /\ in_lang (Star r) s2.
Proof.
  intros H. remember (Star r) as r' eqn:Hr. remember (c :: s) as l eqn:Hl.
  revert s Hl. induction H as [| | | | | |r0 t1 t2 H1 _ H2 IH2]; intros u Hl; try done.
  injection Hr as ->.
  destruct t1 as [|c1 t1].
  - apply IH2; done.
  - simpl in Hl. injection Hl as -> <-. eauto.
Qed.

Lemma nullable_spec (r : regex) : nullable r = true <-> in_lang r [].
Proof.
  induction r as [| |p|r1 IH1 r2 IH2|r1 IH1 r2 IH2|r IH]; simpl.
  - split; [done | by intros ?%in_lang_never].
  - split; [intros _; constructor | done].
  - split; [done|]. intros (c & ? & _)%in_lang_class. done.
  - rewrite andb_true_iff, IH1, IH2, in_lang_seq. split.
    + intros [H1 H2]. by exists [], [].
    + intros (s1 & s2 & Heq & H1 & H2).
      symmetry in Heq. apply app_eq_nil in Heq as [-> ->]. done.
  - by rewrite orb_true_iff, IH1, IH2, in_lang_alt.
  - split; [intros _; constructor | done].
Qed.

Lemma derive_spec (r : regex) (c : ascii) (s : list ascii) :
  in_lang (derive c r) s <-> in_lang r (c :: s).
Proof.
  revert s. induction r as [| |p|r1 IH1 r2 IH2|r1 IH1 r2 IH2|r IH]; intros s; simpl.
  - split; by intros ?%in_lang_never.
  - split; [by intros ?%in_lang_never | by intros ?%in_lang_empty].
  - rewrite in_lang_class. destruct (p c) eqn:Hp.
    + rewrite in_lang_empty. split.
      * intros ->. eauto.
      * by intros (c' & [= -> ->] & _).
    + split; [by intros ?%in_lang_never|]. intros (c' & [= -> ->] & ?). congruence.
  - assert (in_lang (Seq (derive c r1) r2) s <->
            exists s1 s2, s = s1 ++ s2 /\ in_lang r1 (c :: s1) /\ in_lang r2 s2) as Hleft.
    { rewrite in_lang_seq. by setoid_rewrite IH1. }
    rewrite (in_lang_seq r1 r2). destruct (nullable r1) eqn:Hn.
    + rewrite in_lang_alt, Hleft, IH2. split.
      * intros [(s1 & s2 & -> & H1 & H2)|H2].
        -- by exists (c :: s1), s2.
        -- exists [], (c :: s). split; [done|]. split; [by apply nullable_spec|done].
      * intros ([|c1 s1] & s2 & Heq & H1 & H2); simplify_eq/=.
        -- by right.
        -- left. by exists s1, s2.
    + rewrite Hleft. split.
      * intros (s1 & s2 & -> & H1 & H2). by exists (c :: s1), s2.
      * intros ([|c1 s1] & s2 & Heq & H1 & H2); simplify_eq/=.
        -- apply nullable_spec in H1. congruence.
        -- by exists s1, s2.
  - by rewrite !in_lang_alt, IH1, IH2.
  - rewrite in_lang_seq. split.
    + intros (s1 & s2 & -> & H1 & H2). apply IH in H1.
      by apply (in_star_cons r (c :: s1) s2).
    + intros (s1 & s2 & -> & H1 & H2)%in_lang_star_cons.
      exists s1, s2. by rewrite IH.
Qed.

(** The test of an anchored pattern is membership in its language. *)
Lemma test_spec (r : regex) (s : string) :
  test r s = true <-> in_lang r (to_list s).
Proof.
  revert r. induction s as [|c s IH]; intros r; simpl.
  - apply nullable_spec.
  - by rewrite IH, derive_spec.
Qed.

Lemma in_lang_star_class (p : ascii -> bool) (s : list ascii) :
  in_lang (Star (Class p)) s <-> Forall (λ c, p c = true) s.
Proof.
  split.
  - induction s as [|c s IH]; [constructor|].
    intros (s1 & s2 & -> & H1 & H2)%in_lang_star_cons.
    apply in_lang_class in H1 as (c' & Heq & Hc). simplify_eq/=.
    constructor; [done|]. by apply IH.
  - induction 1 as [|c s Hc _ IH]; [constructor|].
    apply (in_star_cons _ [c] s); [by constructor|done].
Qed.

Lemma in_lang_plus_class (p : ascii -> bool) (s : list ascii) :
  in_lang (Plus (Class p)) s <-> s <> [] /\ Forall (λ c, p c = true) s.
Proof.
  unfold Plus. rewrite in_lang_seq. split.
  - intros (s1 & s2 & -> & (c & -> & Hc)%in_lang_class & H2%in_lang_star_class).
    split; [done|]. by constructor.
  - intros [Hne Hall]. destruct s as [|c s]; [done|].
    apply Forall_cons in Hall as [Hc Hall].
    exists [c], s. split; [done|]. split; [by constructor|by apply in_lang_star_class].
Qed.

End regex_facts.

(* ===================================================================== *)
(** ** The rules of validation.mjs *)
(* ===================================================================== *)

Section rule_facts.
Import JsString JsRegExp Validation.

Lemma of_list_nonempty (l : list ascii) : of_list l <> EmptyString <-> l <> [].
Proof. destruct l; simpl; split; congruence. Qed.

Lemma to_list_nonempty (s : string) : to_list s <> [] <-> s <> EmptyString.
Proof. destruct s; simpl; split; congruence. Qed.

Lemma in_lang_emailRegex (l : list ascii) :
  in_lang emailRegex l <->
  exists a b c : list ascii,
    l = a ++ "@"%char :: b ++ "."%char :: c /\
    (a <> [] /\ Forall (λ x, plain_char x = true) a) /\
    (b <> [] /\ Forall (λ x, plain_char x = true) b) /\
    (c <> [] /\ Forall (λ x, plain_char x = true) c).
Proof.
  unfold emailRegex. split.
  - intros (a & l1 & -> & Ha & H)%in_lang_seq.
    apply in_lang_seq in H as (x & l2 & -> & (x' & -> & Hx)%in_lang_class & H).
    apply in_lang_seq in H as (b & l3 & -> & Hb & H).
    apply in_lang_seq in H as (y & c & -> & (y' & -> & Hy)%in_lang_class & Hc).
    apply Ascii.eqb_eq in Hx as <-. apply Ascii.eqb_eq in Hy as <-.
    apply in_lang_plus_class in Ha, Hb, Hc. by exists a, b, c.
  - intros (a & b & c & -> & Ha & Hb & Hc).
    apply in_lang_plus_class in Ha, Hb, Hc.
    apply in_seq; [done|]. apply (in_seq _ _ ["@"%char]); [by constructor|].
    apply in_seq; [done|]. apply (in_seq _ _ ["."%char]); [by constructor|done].
Qed.

Lemma test_emailRegex (s : string) :
  test emailRegex s = true <-> email_shaped s.
Proof.
  rewrite test_spec, in_lang_emailRegex. unfold email_shaped, address_part. split.
  - intros (a & b & c & Hs & [Ha1 Ha2] & [Hb1 Hb2] & [Hc1 Hc2]).
    exists (of_list a), (of_list b), (of_list c).
    rewrite !of_list_nonempty, !to_of_list. split; [|done].
    rewrite <- (of_to_list s), Hs, !of_list_app. simpl. by rewrite ?of_list_app.
  - intros (n & h & t & -> & [Hn1 Hn2] & [Hh1 Hh2] & [Ht1 Ht2]).
    exists (to_list n), (to_list h), (to_list t).
    rewrite !to_list_nonempty. split; [|done].
    rewrite !to_list_app. simpl. by rewrite ?to_list_app.
Qed.

(** X1. The email rule passes a value that is blank, and otherwise exactly
    the values that, trimmed, are a part, an at sign, a part, a point and a
    part, where a part is not empty and holds no white space and no at
    sign. *)
Theorem validateEmail_accepts_addresses (value fieldName : string) :
  validateEmail value fieldName = Return true <->
  nonblank value = false \/ email_shaped (trim value).
Proof.
  unfold validateEmail. fold (nonblank value).
  destruct (nonblank value); [|by split; auto].
  rewrite <- test_emailRegex.
  destruct (test emailRegex (trim value)); simpl; split; auto; try done.
  by intros [?|?].
Qed.

Lemma take_digits_digit (c : ascii) (r : string) :
  decimal_digit c = true ->
  take_digits (String c r) = (String c (take_digits r).1, (take_digits r).2).
Proof. intros H. simpl. rewrite H. by destruct (take_digits r). Qed.

Lemma take_digits_other (c : ascii) (r : string) :
  decimal_digit c = false -> take_digits (String c r) = (EmptyString, String c r).
Proof. intros H. simpl. by rewrite H. Qed.

Lemma take_digits_first (s : string) :
  is_empty (take_digits s).1 =
  negb match s with String c _ => decimal_digit c | EmptyString => false end.
Proof.
  destruct s as [|c r]; [done|]. destruct (decimal_digit c) eqn:H.
  - by rewrite take_digits_digit.
  - by rewrite take_digits_other.
Qed.

(** There is a literal to read exactly when the text begins like one. *)
Lemma read_unsigned_begins (s : string) :
  is_Some (read_unsigned s) <-> begins_unsigned s = true.
Proof.
  unfold read_unsigned, begins_unsigned.
  destruct (startsWith s "Infinity"); [by split; eauto|].
  rewrite orb_false_l.
  destruct s as [|c r].
  - simpl. split; [by intros [? ?]|done].
  - destruct (decimal_digit c) eqn:Hc.
    + rewrite take_digits_digit by done. simpl.
      destruct (after_point _); [destruct (take_digits _)|]; simpl; split; eauto.
    + rewrite take_digits_other by done. simpl.
      destruct (Ascii.eqb c ".") eqn:Hp; simpl.
      * pose proof (take_digits_first r) as Hr.
        destruct (take_digits r) as [d2 r3]. simpl in Hr. rewrite Hr.
        destruct r as [|d r']; simpl; [split; [by intros [? ?]|done]|].
        destruct (decimal_digit d); simpl; split; eauto; [by intros [? ?]|done].
      * split; [by intros [? ?]|done].
Qed.

Lemma floatIsNaN_parseFloat (input : string) :
  floatIsNaN (parseFloat input) = negb (begins_number (trimStart input)).
Proof.
  unfold parseFloat, begins_number.
  destruct (split_sign (trimStart input)) as [sign rest]. simpl.
  pose proof (read_unsigned_begins rest) as H.
  destruct (read_unsigned rest), (begins_unsigned rest); simpl; try done.
  - by destruct H as [H _]; discriminate H.
  - by destruct H as [_ [? H]].
Qed.

(** X2. The number rule passes a value that is blank, and otherwise exactly
    the values that, after leading white space and a sign if any, begin with
    a digit, with a point and a digit, or with Infinity: what follows the
    number is not looked at. *)
Theorem validateNumber_accepts_numeric_start (value fieldName : string) :
  validateNumber value fieldName = Return true <->
  nonblank value = false \/ begins_number (trimStart value) = true.
Proof.
  unfold validateNumber. destruct (nonblank value); [|by split; auto].
  unfold parseFloat, begins_number.
  destruct (split_sign (trimStart value)) as [sign rest]. simpl.
  rewrite <- read_unsigned_begins.
  destruct (read_unsigned rest); simpl; split; eauto; try done.
  - intros [?|[? ?]]; done.
Qed.

End rule_facts.

(* ===================================================================== *)
(** ** Fields and forms *)
(* ===================================================================== *)

Section field_facts.
Import JsString JsRegExp Validation.

Lemma validateNotEmpty_cases (value fieldName : string) :
  validateNotEmpty value fieldName =
  if nonblank value then Return true
  else Throw (mkValidationError (fieldName +:+ " cannot be empty") fieldName).
Proof.
  unfold validateNotEmpty, nonblank.
  by destruct (truthy value), (String.eqb (trim value) EmptyString).
Qed.

Lemma validateText_cases (value fieldName : string) :
  validateText value fieldName =
  if nonblank value then Return true
  else Throw (mkValidationError (fieldName +:+ " must be valid text") fieldName).
Proof.
  unfold validateText, nonblank.
  by destruct (truthy value), (String.eqb (trim value) EmptyString).
Qed.

Lemma rule_message_named (fieldName m : string) :
  m ∈ rule_messages ->
  well_named fieldName (Throw (mkValidationError (fieldName +:+ m) fieldName)).
Proof. intros Hm. split; [done|]. by exists m. Qed.

Lemma rules_well_named (value fieldName : string) :
  well_named fieldName (validateNotEmpty value fieldName) /\
  well_named fieldName (validateEmail value fieldName) /\
  well_named fieldName (validateNumber value fieldName) /\
  well_named fieldName (validateInteger value fieldName) /\
  well_named fieldName (validateText value fieldName).
Proof.
  unfold validateNotEmpty, validateEmail, validateNumber, validateInteger, validateText,
    rule_messages.
  repeat split; repeat case_match; try exact I;
    apply rule_message_named; set_solver.
Qed.

Lemma rule_of_type_well_named (type value fieldName : string) :
  well_named fieldName (rule_of_type type value fieldName).
Proof.
  destruct (rules_well_named value fieldName) as (_ & H1 & H2 & H3 & H4).
  unfold rule_of_type.
  destruct (String.eqb _ "email"); [done|].
  destruct (String.eqb _ "number"); [done|].
  by destruct (String.eqb _ "integer").
Qed.

Lemma validateField_well_named (value fieldName : string) (o : options) :
  well_named fieldName (validateField value fieldName o).
Proof.
  destruct (rules_well_named value fieldName) as (H0 & _ & H2 & _).
  pose proof (rule_of_type_well_named (type o) value fieldName) as H1.
  unfold validateField, mbind, outcome_mbind, outcome_bind.
  set (r0 := if required o then _ else _).
  set (r1 := if nonblank value then _ else _).
  set (r2 := if isPrimaryKey o && nonblank value then _ else _).
  assert (well_named fieldName r0) as W0 by (subst r0; by destruct (required o)).
  assert (well_named fieldName r1) as W1 by (subst r1; by destruct (nonblank value)).
  assert (well_named fieldName r2) as W2
    by (subst r2; by destruct (isPrimaryKey o && nonblank value)).
  clearbody r0 r1 r2. by destruct r0, r1, r2.
Qed.

Lemma validateField_blank_cases (value fieldName : string) (o : options) :
  nonblank value = false ->
  validateField value fieldName o =
  if required o
  then Throw (mkValidationError (fieldName +:+ " cannot be empty") fieldName)
  else Return true.
Proof.
  intros Hb. unfold validateField. rewrite validateNotEmpty_cases, Hb, andb_false_r.
  by destruct (required o).
Qed.

(** X3. On a blank value, empty or white space only, [validateField]
    throws the message cannot be empty when the field is required, whatever
    its type, and passes when it is not required, whatever its type and
    whether or not it is the primary key. *)
Theorem validateField_blank (value fieldName : string) (o : options) :
  nonblank value = false ->
  validateField value fieldName o =
  if required o
  then Throw (mkValidationError (fieldName +:+ " cannot be empty") fieldName)
  else Return true.
Proof.
  intros Hb. unfold validateField. rewrite validateNotEmpty_cases, Hb, andb_false_r.
  by destruct (required o).
Qed.

Lemma validateField_blank_witness :
  validateField "  " "name" (mkOptions true "number" false)
  = Throw (mkValidationError "name cannot be empty" "name").
Proof.
  refine (validateField_blank "  " "name" (mkOptions true "number" false) _).
  reflexivity.
Defined.

(** X4. On a filled value, a field that is not the primary key and whose
    type, lower-cased, is none of email, number and integer passes: the text
    rule, which also stands in for every unknown type, rejects blank values
    only. *)
Theorem validateField_text_accepts_filled (value fieldName : string) (o : options) :
  nonblank value = true -> isPrimaryKey o = false ->
  toLowerCase (type o) ∉ ["email"; "number"; "integer"] ->
  validateField value fieldName o = Return true.
Proof.
  intros Hb Hpk Hty. unfold validateField.
  rewrite validateNotEmpty_cases, Hb, Hpk. unfold rule_of_type.
  destruct (String.eqb_spec (toLowerCase (type o)) "email") as [E|_];
    [rewrite E in Hty; set_solver|].
  destruct (String.eqb_spec (toLowerCase (type o)) "number") as [E|_];
    [rewrite E in Hty; set_solver|].
  destruct (String.eqb_spec (toLowerCase (type o)) "integer") as [E|_];
    [rewrite E in Hty; set_solver|].
  rewrite validateText_cases, Hb. by destruct (required o).
Qed.

Lemma validateField_text_accepts_filled_witness :
  validateField "12 Main St" "address" (mkOptions true "Date" false) = Return true.
Proof.
  refine (validateField_text_accepts_filled "12 Main St" "address"
            (mkOptions true "Date" false) _ _ _).
  - reflexivity.
  - reflexivity.
  - vm_compute. intros H. repeat (apply elem_of_cons in H as [H|H]; [discriminate|]).
    by apply elem_of_nil in H.
Defined.

(** X5. Whatever [validateField] throws carries the name of the field it
    was given, and its message is that name followed by the text of one of
    the five rules. *)
Theorem validateField_error_names_field
    (value fieldName : string) (o : options) (e : ValidationError) :
  validateField value fieldName o = Throw e ->
  field e = fieldName /\
  exists m, m ∈ rule_messages /\ message e = fieldName +:+ m.
Proof.
  intros He. pose proof (validateField_well_named value fieldName o) as H.
  by rewrite He in H.
Qed.

Lemma validateField_error_names_field_witness :
  field (mkValidationError "id must be a valid number" "id") = "id" /\
  exists m, m ∈ rule_messages /\
            message (mkValidationError "id must be a valid number" "id") = "id" +:+ m.
Proof.
  refine (validateField_error_names_field "abc" "id" (mkOptions false "text" true) _ _).
  reflexivity.
Defined.

Lemma field_error_Some (fd : gmap string string) (entry : string * options)
    (err : form_error) :
  field_error fd entry = Some err <->
  exists e, validateField (default EmptyString (fd !! entry.1)) entry.1 entry.2 = Throw e /\
            err = mkFormError entry.1 (message e).
Proof.
  unfold field_error.
  destruct (validateField _ _ _) as [a|e] eqn:Hv.
  - split; [done|]. by intros (e & ? & _).
  - pose proof (validateField_well_named (default EmptyString (fd !! entry.1))
                  entry.1 entry.2) as Hw.
    rewrite Hv in Hw. destruct Hw as [Hf _].
    rewrite Hf. split.
    + intros [= <-]. eauto.
    + intros (e' & [= <-] & ->). done.
Qed.

Lemma field_error_None (fd : gmap string string) (entry : string * options) :
  field_error fd entry = None <->
  validateField (default EmptyString (fd !! entry.1)) entry.1 entry.2 = Return true.
Proof.
  unfold field_error, validateField, mbind, outcome_mbind, outcome_bind.
  repeat case_match; split; done.
Qed.

Lemma omap_field_error_sublist (fd : gmap string string) (l : list (string * options)) :
  error_field <$> omap (field_error fd) l `sublist_of` l.*1.
Proof.
  induction l as [|entry l IH]; [done|].
  simpl. destruct (field_error fd entry) as [err|] eqn:He.
  - apply field_error_Some in He as (e & _ & ->). simpl. by apply sublist_skip.
  - by apply sublist_cons.
Qed.

Lemma elem_of_validateForm_errors
    (formData : gmap string string) (fieldConfigs : gmap string options) (f : string) :
  f ∈ error_field <$> errors (validateForm formData fieldConfigs) <->
  exists o, fieldConfigs !! f = Some o /\ fails formData f o.
Proof.
  unfold validateForm. simpl.
  rewrite list_elem_of_fmap. setoid_rewrite list_elem_of_omap. split.
  - intros (err & -> & [f' o] & Hin & (e & He & ->)%field_error_Some).
    apply elem_of_map_to_list in Hin. exists o. split; [done|]. by exists e.
  - intros (o & Ho & e & He).
    exists (mkFormError f (message e)). split; [done|].
    exists (f, o). split; [by apply elem_of_map_to_list|].
    apply field_error_Some. eauto.
Qed.

(** X6. [validateForm] reports exactly the configured fields that fail, each
    once: a field is named in [errors] when it is configured and
    [validateField] throws on its value, read as empty when the form has no
    such key; [isValid] holds when no configured field fails; and every
    entry carries the message of one of the five rules for its field. *)
Theorem validateForm_reports_failing_fields
    (formData : gmap string string) (fieldConfigs : gmap string options) :
  let result := validateForm formData fieldConfigs in
  (forall f, f ∈ error_field <$> errors result <->
             exists o, fieldConfigs !! f = Some o /\ fails formData f o) /\
  NoDup (error_field <$> errors result) /\
  (isValid result = true <->
   forall f o, fieldConfigs !! f = Some o ->
     validateField (default EmptyString (formData !! f)) f o = Return true) /\
  (forall err, err ∈ errors result ->
     exists m, m ∈ rule_messages /\ error_message err = error_field err +:+ m).
Proof.
  intros result. subst result.
  split; [apply elem_of_validateForm_errors|].
  unfold validateForm. simpl.
  split; [|split].
  - apply (sublist_NoDup _ (map_to_list fieldConfigs).*1);
      [apply NoDup_fst_map_to_list | apply omap_field_error_sublist].
  - rewrite Nat.eqb_eq, length_zero_iff_nil. split.
    + intros Hnil f o Ho.
      apply (field_error_None formData (f, o)).
      destruct (field_error formData (f, o)) as [err|] eqn:He; [|done].
      assert (err ∈ omap (field_error formData) (map_to_list fieldConfigs)) as Hin.
      { apply list_elem_of_omap. exists (f, o). split; [|done].
        by apply elem_of_map_to_list. }
      rewrite Hnil in Hin. by apply elem_of_nil in Hin.
    + intros Hall.
      destruct (omap _ _) as [|err l] eqn:Ho; [done|].
      assert (err ∈ omap (field_error formData) (map_to_list fieldConfigs)) as Hin
        by (rewrite Ho; left).
      apply list_elem_of_omap in Hin as ([f o] & Hin & He).
      apply elem_of_map_to_list in Hin. apply Hall, (field_error_None _ (f, o)) in Hin.
      congruence.
  - intros err ([f o] & Hin & (e & He & ->)%field_error_Some)%list_elem_of_omap.
    simpl in *. pose proof (validateField_well_named (default EmptyString (formData !! f)) f o)
      as Hw.
    rewrite He in Hw. destruct Hw as [_ (m & Hm & ->)]. eauto.
Qed.

(** X7. [validateForm] looks only at the fields that are configured, and a
    key the form does not have counts as the empty string: two forms that
    agree on every configured field, a missing key being the empty string,
    get the same result. *)
Theorem validateForm_reads_configured_fields
    (formData formData' : gmap string string) (fieldConfigs : gmap string options) :
  (forall f, is_Some (fieldConfigs !! f) ->
             default EmptyString (formData !! f) = default EmptyString (formData' !! f)) ->
  validateForm formData fieldConfigs = validateForm formData' fieldConfigs.
Proof.
  intros Hagree. unfold validateForm.
  assert (omap (field_error formData) (map_to_list fieldConfigs)
          = omap (field_error formData') (map_to_list fieldConfigs)) as ->; [|done].
  apply list_omap_ext, Forall_Forall2_diag, Forall_forall.
  intros [f o] Hin%elem_of_map_to_list. unfold field_error. simpl.
  by rewrite Hagree by eauto.
Qed.

Lemma validateForm_reads_configured_fields_witness :
  validateForm {["note" := "kept"]} {["name" := mkOptions true "text" false]}
  = validateForm ∅ {["name" := mkOptions true "text" false]}.
Proof.
  refine (validateForm_reads_configured_fields _ _ _ _).
  intros f [o Ho]. apply lookup_singleton_Some in Ho as [<- _].
  reflexivity.
Defined.

Lemma foldl_config_lookup (pk : option string) (columns : list string)
    (config : gmap string options) (c : string) :
  foldl (λ config column,
           <[column := mkOptions (negb (bool_decide (Some column = pk)))
                                 (inferFieldType column)
                                 (bool_decide (Some column = pk))]> config)
        config columns !! c =
  if decide (c ∈ columns)
  then Some (mkOptions (negb (bool_decide (Some c = pk))) (inferFieldType c)
                       (bool_decide (Some c = pk)))
  else config !! c.
Proof.
  revert config. induction columns as [|a l IH]; intros config.
  - cbn [foldl]. destruct (decide (c ∈ [])) as [Hin|_]; [|done].
    by apply elem_of_nil in Hin.
  - cbn [foldl]. rewrite IH.
    destruct (decide (c ∈ l)) as [Hin|Hin], (decide (c ∈ a :: l)) as [Hin'|Hin'];
      try done.
    + exfalso. apply Hin'. by right.
    + apply elem_of_cons in Hin' as [->|?]; [|done]. by rewrite lookup_insert_eq.
    + rewrite lookup_insert_ne; [done|]. intros ->. apply Hin'. left.
Qed.

Lemma createFieldConfig_lookup (columns : list string) (pk : option string) (c : string) :
  createFieldConfig columns pk !! c =
  if decide (c ∈ columns)
  then Some (mkOptions (negb (bool_decide (Some c = pk))) (inferFieldType c)
                       (bool_decide (Some c = pk)))
  else None.
Proof.
  unfold createFieldConfig. rewrite (foldl_config_lookup pk columns ∅ c).
  by rewrite lookup_empty.
Qed.

(** X8. A form checked under the configuration [createFieldConfig] builds
    from the columns of a table and its primary key: only columns are
    reported, a column listed twice changes nothing, and a column left
    blank or missing from the form is reported exactly when it is not the
    primary key. *)
Theorem createFieldConfig_requires_all_but_key
    (columns : list string) (primaryKey : option string)
    (formData : gmap string string) :
  let result := validateForm formData (createFieldConfig columns primaryKey) in
  (forall f, f ∈ error_field <$> errors result -> f ∈ columns) /\
  (forall f, f ∈ columns ->
     nonblank (default EmptyString (formData !! f)) = false ->
     (f ∈ error_field <$> errors result <-> Some f <> primaryKey)).
Proof.
  intros result. subst result. split.
  - intros f (o & Ho & _)%elem_of_validateForm_errors.
    rewrite createFieldConfig_lookup in Ho. by destruct (decide (f ∈ columns)).
  - intros f Hf Hb. rewrite elem_of_validateForm_errors.
    setoid_rewrite createFieldConfig_lookup. rewrite decide_True by done.
    unfold fails. split.
    + intros (o & [= <-] & e & He). rewrite validateField_blank_cases in He by done.
      simpl in He. intros Hpk. by rewrite bool_decide_true in He.
    + intros Hpk. eexists. split; [done|].
      rewrite validateField_blank_cases by done. simpl.
      rewrite bool_decide_false by done. simpl. eauto.
Qed.

(** X9. A field marked as the primary key passes only when its value is
    blank or begins, after leading white space and a sign if any, with a
    number, whatever its type is. *)
Theorem validateField_key_needs_number (value fieldName : string) (o : options) :
  isPrimaryKey o = true ->
  validateField value fieldName o = Return true ->
  nonblank value = false \/ begins_number (trimStart value) = true.
Proof.
  intros Hpk Hv. destruct (nonblank value) eqn:Hb; [right|by left].
  unfold validateField in Hv. rewrite Hpk, Hb in Hv. simpl in Hv.
  unfold mbind, outcome_mbind, outcome_bind in Hv.
  destruct (if required o then _ else _); [|done].
  destruct (rule_of_type _ _ _); [|done].
  unfold validateNumber in Hv. rewrite Hb, floatIsNaN_parseFloat in Hv. simpl in Hv.
  by destruct (begins_number (trimStart value)).
Qed.

Lemma validateField_key_needs_number_witness :
  nonblank "42b" = false \/ begins_number (trimStart "42b") = true.
Proof.
  refine (validateField_key_needs_number "42b" "id" (mkOptions false "number" true) _ _).
  - reflexivity.
  - reflexivity.
Defined.

End field_facts.

(* ===================================================================== *)
(** ** The encoding of URL components *)
(* ===================================================================== *)

Section encoding_facts.
Import JsString DataAccess.

Lemma decode_first_encode_char (c : ascii) (r : string) :
  decode_first (encode_char c +:+ r) = Some (c, r).
Proof. destruct c as [[] [] [] [] [] [] [] []]; reflexivity. Qed.

Lemma encode_char_safe (c : ascii) :
  forallb uri_safe (to_list (encode_char c)) = true.
Proof. destruct c as [[] [] [] [] [] [] [] []]; reflexivity. Qed.

Lemma encodeURIComponent_safe (s : string) :
  Forall (λ c, uri_safe c = true) (to_list (encodeURIComponent s)).
Proof.
  induction s as [|c r IH]; simpl; [constructor|].
  rewrite to_list_app. apply Forall_app. split; [|done].
  apply Forall_forall. intros x Hx.
  pose proof (encode_char_safe c) as H. rewrite forallb_forall in H.
  apply H. by apply list_elem_of_In.
Qed.

Lemma encodeURIComponent_inj_aux (s1 s2 : string) :
  encodeURIComponent s1 = encodeURIComponent s2 -> s1 = s2.
Proof.
  revert s2. induction s1 as [|c1 r1 IH]; intros [|c2 r2] H; simpl in H.
  - done.
  - apply (f_equal decode_first) in H. by rewrite decode_first_encode_char in H.
  - apply (f_equal decode_first) in H. by rewrite decode_first_encode_char in H.
  - apply (f_equal decode_first) in H. rewrite !decode_first_encode_char in H.
    injection H as -> H. by rewrite (IH _ H).
Qed.

Lemma app_inv_head_s (p x y : string) : p +:+ x = p +:+ y -> x = y.
Proof. induction p as [|c p IH]; [done|]. rewrite !app_String. intros [= H]. auto. Qed.

(** Two texts cut at their first slash are equal part by part. *)
Lemma app_slash_inj (a a' b b' : string) :
  "/"%char ∉ to_list a -> "/"%char ∉ to_list a' ->
  a +:+ String "/" b = a' +:+ String "/" b' -> a = a' /\ b = b'.
Proof.
  revert a'. induction a as [|c a IH]; intros [|c' a'] Ha Ha'.
  - rewrite !app_empty_l. by intros [= ->].
  - rewrite app_empty_l, app_String. intros [= <- _].
    exfalso. apply Ha'. simpl. left.
  - rewrite app_empty_l, app_String. intros [= -> _].
    exfalso. apply Ha. simpl. left.
  - rewrite !app_String. intros [= -> H].
    destruct (IH a') as [-> ->]; [| |done|done].
    + intros ?. apply Ha. simpl. by right.
    + intros ?. apply Ha'. simpl. by right.
Qed.

Lemma encodeURIComponent_no_slash (s : string) :
  "/"%char ∉ to_list (encodeURIComponent s).
Proof.
  intros Hin. pose proof (encodeURIComponent_safe s) as H.
  rewrite Forall_forall in H. by apply H in Hin.
Qed.

(** X10. What [encodeURIComponent] gives holds only unreserved characters
    (letters, digits, and the marks hyphen, underscore, point, exclamation
    mark, tilde, asterisk, apostrophe and round brackets) and the percent
    sign: no slash,
    question mark, number sign, ampersand, equals sign, plus sign or space
    gets into a URL from a table name, a key or a search text. *)
Theorem encodeURIComponent_keeps_reserved_out (s : string) (c : ascii) :
  c ∈ to_list (encodeURIComponent s) ->
  (uri_unreserved c = true \/ c = "%"%char) /\
  c ∉ to_list "/?#&=+ ".
Proof.
  intros Hin. pose proof (encodeURIComponent_safe s) as H.
  rewrite Forall_forall in H. apply H in Hin. split.
  - unfold uri_safe in Hin. apply orb_true_iff in Hin as [?|?%Ascii.eqb_eq]; auto.
  - intros Hc. simpl in Hc.
    repeat (apply elem_of_cons in Hc as [->|Hc]; [discriminate Hin|]).
    by apply elem_of_nil in Hc.
Qed.

Lemma encodeURIComponent_keeps_reserved_out_witness :
  (uri_unreserved "%" = true \/ "%"%char = "%"%char) /\ "%"%char ∉ to_list "/?#&=+ ".
Proof.
  refine (encodeURIComponent_keeps_reserved_out "a/b" "%" _).
  vm_compute. apply elem_of_cons. right. left.
Defined.

(** X11. [encodeURIComponent] loses nothing: two texts with the same
    encoding are the same text. *)
Theorem encodeURIComponent_injective (s1 s2 : string) :
  encodeURIComponent s1 = encodeURIComponent s2 -> s1 = s2.
Proof.
  revert s2. induction s1 as [|c1 r1 IH]; intros [|c2 r2] H; simpl in H;
    try done; apply (f_equal decode_first) in H;
    rewrite ?decode_first_encode_char in H; try done.
  injection H as -> H. by rewrite (IH _ H).
Qed.

Lemma encodeURIComponent_injective_witness : "a b" = "a b".
Proof. refine (encodeURIComponent_injective "a b" "a b" _). reflexivity. Defined.

(** X12. The request tells the operation and its arguments: two
    operations that send the same request, method, URL and payload, are the
    same operation on the same table, key, search text and payload. *)
Theorem request_of_injective (op1 op2 : operation) :
  request_of op1 = request_of op2 -> op1 = op2.
Proof.
  pose proof encodeURIComponent_no_slash as Hns.
  pose proof encodeURIComponent_inj_aux as Hinj.
  destruct op1, op2; simpl; intros [= H]; subst;
    try (apply app_inv_head_s in H).
  all: try (apply Hinj in H as ->; done).
  all: try (apply app_slash_inj in H as [H1 H2]; [|by apply Hns|by apply Hns]).
  all: try (apply Hinj in H1 as ->).
  all: try (apply Hinj in H2 as ->; done).
  all: try done.
  all: try (apply (app_inv_head_s "search/") in H2; apply Hinj in H2 as ->; done).
  all: try (exfalso; first
    [ apply (Hns tableName); rewrite H, to_list_app
    | apply (Hns tableName0); rewrite <- H, to_list_app ];
    apply elem_of_app; right; left).
Qed.

Lemma request_of_injective_witness :
  OpRemove "orders" "7" = OpRemove "orders" "7".
Proof. refine (request_of_injective _ _ _). reflexivity. Defined.

End encoding_facts.

(* ===================================================================== *)
(** ** The routes, one after the other *)
(* ===================================================================== *)

Section route_facts.
Import JsString Sqlite Server.
Local Open Scope Z_scope.

Lemma serves_rewritten (st : state) (t : string) (tb : table) (rows : list (Z * row)) :
  serves st t tb -> serves (rewritten t tb rows st) t (mkTable (tbl_columns tb) rows).
Proof.
  intros (Hne & Hdb & Hwf & Hco). split; [done|]. split; [|split; [done|]].
  - simpl. by rewrite lookup_insert_eq.
  - intros t' meta. simpl. destruct (decide (t = t')) as [<-|Hd].
    + rewrite !lookup_insert_eq. intros [= <-]. eexists. split; [done|].
      symmetry. by apply meta_of_columns.
    + rewrite !lookup_insert_ne by done. apply Hco.
Qed.

Lemma get_one_some (st : state) (t : string) (tb : table) (id pk : string) :
  serves st t tb -> primaryKey (meta_of tb) = Some pk ->
  get_one t id st
  = (match head (filter (λ r, has_key pk id r) (tbl_rows tb).*2) with
     | Some r => mkResponse 200 (Object r)
     | None => not_found
     end, cached t tb st).
Proof.
  intros Hs Hpk. pose proof Hs as (Hne & Hdb & Hwf & Hco).
  unfold get_one. rewrite (getTableMetadata_serves _ _ _ Hs).
  rewrite Hpk, (key_truthy tb pk Hwf Hpk). cbn [negb].
  pose proof (parse_where_pk t (meta_of tb)) as Hparse.
  rewrite Hpk, key_name_Some in Hparse.
  unfold db_get, db_all. rewrite Hparse. cbn [query cached db]. rewrite Hdb.
  rewrite (key_has_column tb pk Hpk). unfold has_key.
  by destruct (head _).
Qed.

Lemma delete_item_some (st : state) (t : string) (tb : table) (id pk : string) :
  serves st t tb -> primaryKey (meta_of tb) = Some pk ->
  delete_item t id st
  = (if Z.of_nat (length (filter (λ ir : Z * row, has_key pk id ir.2) (tbl_rows tb))) =? 0
     then not_found else mkResponse 204 Empty,
     rewritten t tb (filter (λ ir : Z * row, negb (has_key pk id ir.2)) (tbl_rows tb)) st).
Proof.
  intros Hs Hpk. pose proof Hs as (Hne & Hdb & Hwf & Hco).
  unfold delete_item. rewrite (getTableMetadata_serves _ _ _ Hs).
  rewrite Hpk, (key_truthy tb pk Hwf Hpk). cbn [negb].
  pose proof (parse_delete_sql t (meta_of tb)) as Hparse.
  rewrite Hpk, key_name_Some in Hparse.
  unfold db_run. rewrite Hparse. cbn [execute cached db]. rewrite Hdb.
  rewrite (key_has_column tb pk Hpk). cbn [changes]. unfold has_key, rewritten.
  by destruct (Z.of_nat _ =? 0).
Qed.

Lemma handle_reads_db (r : request) (st : state) :
  reads r = true -> db (handle r st).2 = db st.
Proof.
  intros Hr. destruct r as [t|t|t id|t b|t id b|t id|t q]; try done; simpl;
    unfold get_meta, get_list, get_one, search_items;
    pose proof (getTableMetadata_db t st) as Hdb;
    destruct (getTableMetadata t st) as [[err|m] st1]; simpl in Hdb;
    repeat case_match; simplify_eq; done.
Qed.

(** X14. A request that names a table the database does not have is
    answered 400 with the text Table not found and the name, on every
    route, and nothing is cached or written. *)
Theorem missing_table_is_refused (r : request) (st : state) :
  coherent st -> table_of r <> EmptyString -> db st !! table_of r = None ->
  handle r st = (mkResponse 400 (Text ("Table not found: " +:+ table_of r)), st).
Proof.
  intros Hco Hne Hdb.
  assert (getTableMetadata (table_of r) st
          = (inl ("Table not found: " +:+ table_of r), st)) as Hmeta.
  { rewrite getTableMetadata_cases, decide_False by done.
    destruct (metadataCache st !! table_of r) as [m|] eqn:Hc.
    - destruct (Hco _ _ Hc) as (tb & Htb & _). congruence.
    - by rewrite Hdb. }
  destruct r as [t|t|t id|t b|t id b|t id|t q]; simpl in *;
    unfold get_meta, get_list, get_one, post_item, put_item, delete_item, search_items;
    by rewrite Hmeta.
Qed.

Lemma missing_table_is_refused_witness :
  handle (DeleteItem "orders" "1") items_state
  = (mkResponse 400 (Text "Table not found: orders"), items_state).
Proof.
  refine (missing_table_is_refused (DeleteItem "orders" "1") items_state _ _ _).
  - apply coherent_empty.
  - discriminate.
  - reflexivity.
Defined.

(** X15. The cache is never refreshed.  Once the metadata of a table is
    cached and the table is then dropped from outside, the metadata route
    still answers 200 with the cached metadata, while the list, and with a
    column the search, and with a key the one-row and delete routes answer
    500, all without a change of state. *)
Theorem dropped_table_stays_cached (st : state) (t : string) (meta : metadata) :
  t <> EmptyString -> metadataCache st !! t = Some meta -> db st !! t = None ->
  get_meta t st = (mkResponse 200 (Meta meta), st) /\
  get_list t st = (internal_error, st) /\
  (forall q, columns meta <> [] -> search_items t q st = (internal_error, st)) /\
  (forall id, truthy (primaryKey meta) = true ->
     get_one t id st = (internal_error, st) /\
     delete_item t id st = (internal_error, st)).
Proof.
  intros Hne Hc Hdb.
  assert (getTableMetadata t st = (inr meta, st)) as Hmeta.
  { by rewrite getTableMetadata_cases, decide_False, Hc by done. }
  unfold get_meta, get_list, search_items, get_one, delete_item. rewrite Hmeta.
  split; [done|]. split; [|split].
  - unfold db_all. rewrite parse_list_sql. cbn [query]. by rewrite Hdb.
  - intros q Hcols. unfold db_all. rewrite parse_search_sql by done.
    cbn [query]. by rewrite Hdb.
  - intros id Hpk. rewrite Hpk. cbn [negb]. split.
    + unfold db_get, db_all. rewrite parse_where_pk. cbn [query]. by rewrite Hdb.
    + unfold db_run. rewrite parse_delete_sql. cbn [execute]. by rewrite Hdb.
Qed.

Lemma dropped_table_stays_cached_witness :
  get_meta "items" dropped_items_state
  = (mkResponse 200 (Meta (meta_of items_table)), dropped_items_state) /\
  get_list "items" dropped_items_state = (internal_error, dropped_items_state).
Proof.
  destruct (dropped_table_stays_cached dropped_items_state "items" (meta_of items_table))
    as (H1 & H2 & _); [discriminate|reflexivity|reflexivity|].
  by split.
Defined.

Lemma filter_has_key_deleted (pk id : string) (rows : list (Z * row)) :
  filter (λ ir : Z * row, has_key pk id ir.2)
         (filter (λ ir : Z * row, negb (has_key pk id ir.2)) rows) = [].
Proof.
  induction rows as [|ir rows IH]; [done|].
  rewrite (filter_cons (λ ir : Z * row, negb (has_key pk id ir.2))).
  destruct (decide _) as [H|H]; [|done].
  rewrite filter_cons. destruct (decide _) as [H'|H']; [|done].
  by destruct (has_key pk id ir.2).
Qed.

Lemma filter_snd (P : row -> bool) (rows : list (Z * row)) :
  filter (λ r, P r) rows.*2 = (filter (λ ir : Z * row, P ir.2) rows).*2.
Proof.
  induction rows as [|ir rows IH]; [done|].
  rewrite fmap_cons, !filter_cons.
  destruct (decide (P ir.2)) as [H|H]; [|done]. by rewrite fmap_cons, IH.
Qed.

Lemma filter_miss (P : row -> bool) (rows : list (Z * row)) :
  Forall (λ r, P r = false) rows.*2 ->
  filter (λ ir : Z * row, negb (P ir.2)) rows = rows.
Proof.
  induction rows as [|ir rows IH]; [done|].
  rewrite fmap_cons. intros [Hir Hall]%Forall_cons.
  rewrite filter_cons. destruct (decide _) as [H|H].
  - by rewrite IH.
  - by rewrite Hir in H.
Qed.

Lemma head_filter_first {A} (P : A -> bool) (l : list A) :
  Exists (λ x, P x = true) l ->
  exists x before after,
    head (filter (λ x, P x) l) = Some x /\ P x = true /\
    l = before ++ x :: after /\ Forall (λ y, P y = false) before.
Proof.
  induction l as [|a l IH]; intros Hex; [by apply Exists_nil in Hex|].
  rewrite filter_cons. destruct (decide (P a)) as [Ha|Ha].
  - exists a, [], l. apply Is_true_true in Ha. by repeat split.
  - apply Is_true_false in Ha.
    apply Exists_cons in Hex as [Hex|Hex]; [congruence|].
    destruct (IH Hex) as (x & before & after & Hh & Hx & -> & Hb).
    exists x, (a :: before), after. repeat split; try done. by constructor.
Qed.

Lemma head_filter_none {A} (P : A -> bool) (l : list A) :
  Forall (λ x, P x = false) l -> filter (λ x, P x) l = [].
Proof.
  induction 1 as [|a l Ha _ IH]; [done|].
  rewrite filter_cons. destruct (decide (P a)) as [H|H]; [|done].
  by rewrite Ha in H.
Qed.

Lemma cached_rewritten (st : state) (t : string) (tb : table) (rows : list (Z * row)) :
  cached t (mkTable (tbl_columns tb) rows) (rewritten t tb rows st) = rewritten t tb rows st.
Proof.
  unfold cached, rewritten. cbn [metadataCache db]. rewrite insert_insert_eq.
  by rewrite (meta_of_columns tb (mkTable (tbl_columns tb) rows)).
Qed.

Lemma rowid_below_next (tb : table) (ir : Z * row) :
  ir ∈ tbl_rows tb -> ir.1 < next_rowid tb.
Proof.
  unfold next_rowid. induction (tbl_rows tb) as [|a l IH]; intros Hin.
  - by apply elem_of_nil in Hin.
  - rewrite fmap_cons. cbn [foldr]. apply elem_of_cons in Hin as [->|Hin]; [lia|].
    apply IH in Hin. lia.
Qed.

Lemma has_key_rowid (pk : string) (r : row) (n m : Z) :
  r !! pk = Some (VInt n) -> has_key pk (decimal m) r = bool_decide (n = m).
Proof.
  intros Hr. unfold has_key, cell. rewrite Hr. simpl.
  destruct (String.eqb_spec (decimal n) (decimal m)) as [H|H].
  - apply (inj _) in H. by rewrite bool_decide_true.
  - rewrite bool_decide_false; [done|]. by intros ->.
Qed.

Lemma sent_lookup (meta : metadata) (body : row) (k : string) :
  sent meta body !! k = if decide (k ∈ writable_keys meta body) then body !! k else None.
Proof.
  pose proof (fromEntries_sent meta body) as Hsent. cbv zeta in Hsent.
  rewrite <- Hsent, lookup_fromEntries.
  destruct (decide (k ∈ writable_keys meta body)) as [Hk|Hk]; [|done].
  apply writable_keys_spec in Hk as (_ & _ & [v Hv]).
  unfold cell. by rewrite Hv.
Qed.

Lemma sent_lookup_key (meta : metadata) (body : row) (pk : string) :
  primaryKey meta = Some pk -> sent meta body !! pk = None.
Proof.
  intros Hpk. rewrite sent_lookup, decide_False; [done|].
  intros (_ & Hne & _)%writable_keys_spec. by rewrite Hpk in Hne.
Qed.

Lemma has_key_union (pk id : string) (given r : row) :
  given !! pk = None -> has_key pk id (given ∪ r) = has_key pk id r.
Proof. intros Hg. unfold has_key, cell. by rewrite lookup_union_r. Qed.

Lemma filter_updated_rows (pk id : string) (given : row) (rows : list (Z * row)) :
  given !! pk = None ->
  filter (λ r, has_key pk id r) (updated_rows (has_key pk id) given rows).*2
  = (given ∪.) <$> filter (λ r, has_key pk id r) rows.*2.
Proof.
  intros Hg. induction rows as [|ir rows IH]; [done|].
  cbn [updated_rows map]. rewrite !fmap_cons, !filter_cons.
  change (map _ rows) with (updated_rows (has_key pk id) given rows).
  destruct (has_key pk id ir.2) eqn:Hk; cbn [snd].
  - rewrite (has_key_union pk id given ir.2 Hg), Hk.
    destruct (decide (Is_true true)) as [_|H]; [|by destruct H].
    by rewrite fmap_cons, IH.
  - rewrite Hk. destruct (decide (Is_true false)) as [H|_]; [done|]. exact IH.
Qed.

Lemma filter_some_length {A} (P : A -> bool) (l : list A) :
  length (filter (λ x, P x) l) <> 0%nat -> Exists (λ x, P x = true) l.
Proof.
  induction l as [|a l IH]; [done|].
  rewrite filter_cons. destruct (decide (P a)) as [Ha|Ha].
  - intros _. left. by apply Is_true_true.
  - intros Hl. right. by apply IH.
Qed.

Lemma filter_ext_in {A} (P Q : A -> bool) (l : list A) :
  Forall (λ x, P x = Q x) l -> filter (λ x, P x) l = filter (λ x, Q x) l.
Proof.
  induction 1 as [|a l Ha _ IH]; [done|].
  by rewrite !filter_cons, Ha, IH.
Qed.

(** On rows that hold their rowid under the key, the rows whose key equals
    the decimal form of [n] are the rows of rowid [n]. *)
Lemma keyed_has_key (pk : string) (tb : table) (n : Z) :
  keyed_by_rowid pk tb ->
  Forall (λ ir : Z * row, has_key pk (decimal n) ir.2 = bool_decide (ir.1 = n)) (tbl_rows tb).
Proof.
  unfold keyed_by_rowid. intros Hk. eapply Forall_impl; [exact Hk|].
  intros ir Hir. by apply has_key_rowid.
Qed.

Lemma filter_rowid_elem (n : Z) (rows : list (Z * row)) :
  n ∈ rows.*1 <-> filter (λ ir : Z * row, bool_decide (ir.1 = n)) rows <> [].
Proof.
  induction rows as [|ir rows IH]; [by rewrite elem_of_nil|].
  rewrite fmap_cons, elem_of_cons, filter_cons.
  destruct (decide (bool_decide (ir.1 = n))) as [H|H].
  - apply bool_decide_unpack in H. split; [done|]. intros _. by left.
  - rewrite IH. split; [|by right]. intros [->|?]; [|done].
    exfalso. apply H. by apply bool_decide_pack.
Qed.

Lemma filter_rowid_unique (n : Z) (r : row) (rows : list (Z * row)) :
  NoDup rows.*1 -> (n, r) ∈ rows ->
  filter (λ ir : Z * row, bool_decide (ir.1 = n)) rows = [(n, r)].
Proof.
  induction rows as [|ir rows IH]; [by intros _ ?%elem_of_nil|].
  rewrite fmap_cons. intros [Hnot Hnd]%NoDup_cons Hin. rewrite filter_cons.
  apply elem_of_cons in Hin as [<-|Hin].
  - cbn [fst] in *. destruct (decide (bool_decide (n = n))) as [_|H];
      [|exfalso; apply H; by apply bool_decide_pack].
    f_equal. destruct (filter (λ ir : Z * row, bool_decide (ir.1 = n)) rows)
      as [|x l] eqn:Hf; [done|].
    exfalso. apply Hnot. apply filter_rowid_elem. by rewrite Hf.
  - destruct (decide (bool_decide (ir.1 = n))) as [H|H]; [|by apply IH].
    apply bool_decide_unpack in H. exfalso. apply Hnot. rewrite H.
    apply list_elem_of_fmap. by exists (n, r).
Qed.

(** X16. Delete by row id.  On a table whose key is an INTEGER PRIMARY KEY,
    every row holding its rowid under it, a delete of the id that is the
    decimal form of [n] removes the rows of rowid [n] and no other; it
    answers 204 when there was such a row and 404, the database as it was,
    when there was none; and after it a second delete of the same id and a
    fetch of that id both answer 404. *)
Theorem delete_item_by_rowid (st : state) (t : string) (tb : table) (pk : string) (n : Z) :
  serves st t tb -> rowid_alias tb = Some pk -> keyed_by_rowid pk tb ->
  let id := decimal n in
  let st' := (delete_item t id st).2 in
  db st' !! t
  = Some (mkTable (tbl_columns tb)
            (filter (λ ir : Z * row, negb (bool_decide (ir.1 = n))) (tbl_rows tb))) /\
  (n ∈ (tbl_rows tb).*1 -> (delete_item t id st).1 = mkResponse 204 Empty) /\
  (n ∉ (tbl_rows tb).*1 ->
     delete_item t id st = (mkResponse 404 (Text "Item not found"), cached t tb st)) /\
  (delete_item t id st').1 = mkResponse 404 (Text "Item not found") /\
  (get_one t id st').1 = mkResponse 404 (Text "Item not found").
Proof.
  intros Hs Ha Hk id st'. subst st'.
  pose proof (rowid_alias_is_key tb pk Ha) as Hpk.
  pose proof (delete_item_some st t tb id pk Hs Hpk) as Hdel.
  pose proof (serves_rewritten st t tb
                (filter (λ ir : Z * row, negb (has_key pk id ir.2)) (tbl_rows tb)) Hs) as Hs'.
  set (tb' := mkTable _ _) in Hs'.
  assert (primaryKey (meta_of tb') = Some pk) as Hpk'
    by (by rewrite (meta_of_columns tb tb')).
  pose proof (keyed_has_key pk tb n Hk) as Hkey. fold id in Hkey.
  assert (filter (λ ir : Z * row, has_key pk id ir.2) (tbl_rows tb)
          = filter (λ ir : Z * row, bool_decide (ir.1 = n)) (tbl_rows tb)) as Hhit
    by (by apply (filter_ext_in (λ ir : Z * row, has_key pk id ir.2))).
  assert (filter (λ ir : Z * row, negb (has_key pk id ir.2)) (tbl_rows tb)
          = filter (λ ir : Z * row, negb (bool_decide (ir.1 = n))) (tbl_rows tb)) as Hmiss.
  { apply (filter_ext_in (λ ir : Z * row, negb (has_key pk id ir.2))).
    eapply Forall_impl; [exact Hkey|]. intros ir Hir. simpl in *. by rewrite Hir. }
  rewrite Hdel. cbn [fst snd].
  split; [|split; [|split; [|split]]].
  - simpl. by rewrite lookup_insert_eq, Hmiss.
  - rewrite Hhit. intros Hin%filter_rowid_elem. revert Hin.
    by destruct (filter (λ ir : Z * row, bool_decide (ir.1 = n)) (tbl_rows tb)) as [|x l].
  - intros Hin.
    assert (filter (λ ir : Z * row, has_key pk id ir.2) (tbl_rows tb) = []) as Hnil.
    { rewrite Hhit.
      destruct (filter (λ ir : Z * row, bool_decide (ir.1 = n)) (tbl_rows tb))
        as [|x l] eqn:Hf; [done|].
      exfalso. apply Hin, filter_rowid_elem. by rewrite Hf. }
    rewrite Hnil. cbn [length Z.of_nat Z.eqb]. f_equal.
    rewrite filter_miss.
    + pose proof Hs as (_ & Hdb & _). by apply rewritten_same.
    + apply Forall_fmap.
      apply (filter_none_length (λ ir : Z * row, has_key pk id ir.2)).
      by rewrite Hnil.
  - rewrite (delete_item_some _ t tb' id pk Hs' Hpk'). cbn [fst].
    subst tb'. cbn [tbl_rows]. by rewrite filter_has_key_deleted.
  - rewrite (get_one_some _ t tb' id pk Hs' Hpk'). cbn [fst].
    subst tb'. cbn [tbl_rows]. by rewrite filter_snd, filter_has_key_deleted.
Qed.

Lemma delete_item_by_rowid_witness :
  (delete_item "items" (decimal 2) items_state).1 = mkResponse 204 Empty /\
  db (delete_item "items" (decimal 2) items_state).2 !! "items"
  = Some (mkTable (tbl_columns items_table)
            (filter (λ ir : Z * row, negb (bool_decide (ir.1 = 2))) (tbl_rows items_table))) /\
  (delete_item "items" (decimal 2) (delete_item "items" (decimal 2) items_state).2).1
  = mkResponse 404 (Text "Item not found").
Proof.
  destruct (delete_item_by_rowid items_state "items" items_table "id" 2 items_served)
    as (H1 & H2 & _ & H4 & _).
  - reflexivity.
  - repeat constructor.
  - split; [|split].
    + apply H2. apply elem_of_cons. right. left.
    + exact H1.
    + exact H4.
Defined.

(** X17. Fetch by row id.  On a table whose key is an INTEGER PRIMARY KEY,
    every row holding its rowid under it and no rowid used twice, a fetch of
    the id that is the decimal form of [n] answers 200 with the row of rowid
    [n] when there is one, and 404 when there is none. *)
Theorem get_one_by_rowid (st : state) (t : string) (tb : table) (pk : string) (n : Z) :
  serves st t tb -> rowid_alias tb = Some pk -> keyed_by_rowid pk tb ->
  NoDup (tbl_rows tb).*1 ->
  (forall r, (n, r) ∈ tbl_rows tb ->
     (get_one t (decimal n) st).1 = mkResponse 200 (Object r)) /\
  (n ∉ (tbl_rows tb).*1 ->
     (get_one t (decimal n) st).1 = mkResponse 404 (Text "Item not found")).
Proof.
  intros Hs Ha Hk Hnd.
  pose proof (rowid_alias_is_key tb pk Ha) as Hpk.
  rewrite (get_one_some st t tb (decimal n) pk Hs Hpk). cbn [fst].
  rewrite filter_snd.
  rewrite (filter_ext_in (λ ir : Z * row, has_key pk (decimal n) ir.2)
             (λ ir : Z * row, bool_decide (ir.1 = n)))
    by (by apply keyed_has_key).
  split.
  - intros r Hin. by rewrite (filter_rowid_unique n r _ Hnd Hin).
  - intros Hin.
    destruct (filter (λ ir : Z * row, bool_decide (ir.1 = n)) (tbl_rows tb))
      as [|x l] eqn:Hf; [done|].
    exfalso. apply Hin, filter_rowid_elem. by rewrite Hf.
Qed.

Lemma get_one_by_rowid_witness :
  (get_one "items" (decimal 2) items_state).1 = mkResponse 200 (Object item_2) /\
  (get_one "items" (decimal 7) items_state).1 = mkResponse 404 (Text "Item not found").
Proof.
  split.
  - refine (proj1 (get_one_by_rowid items_state "items" items_table "id" 2
                     items_served _ _ _) item_2 _).
    + reflexivity.
    + repeat constructor.
    + compute_done.
    + apply elem_of_cons. right. left.
  - refine (proj2 (get_one_by_rowid items_state "items" items_table "id" 7
                     items_served _ _ _) _).
    + reflexivity.
    + repeat constructor.
    + compute_done.
    + compute_done.
Defined.

(** X18. Create, then fetch.  On a table whose key is an INTEGER PRIMARY
    KEY, every row holding its rowid under it: when a create is answered
    201, the body of the answer holds an integer under the key, and a fetch
    of that integer, written in decimal, then answers 200 with a row that
    holds the same integer under the key, and changes nothing. *)
Theorem post_item_then_get_one (st : state) (t : string) (tb : table) (pk : string)
    (body created : row) :
  serves st t tb -> rowid_alias tb = Some pk -> keyed_by_rowid pk tb ->
  (post_item t body st).1 = mkResponse 201 (Object created) ->
  let st' := (post_item t body st).2 in
  exists (n : Z) (stored : row),
    created !! pk = Some (VInt n) /\
    get_one t (decimal n) st' = (mkResponse 200 (Object stored), st') /\
    stored !! pk = Some (VInt n).
Proof.
  intros Hs Ha Hrows Hresp st'. subst st'.
  pose proof Hs as (Hne & Hdb & Hwf & Hco).
  pose proof (rowid_alias_is_key tb pk Ha) as Hpk.
  destruct (decide (writable_keys (meta_of tb) body = [])) as [Hkeys|Hkeys].
  { by rewrite (post_item_none st t tb body Hs Hkeys) in Hresp. }
  revert Hresp. rewrite (post_item_some st t tb body Hs Hkeys). cbn [fst snd].
  rewrite Hpk, (key_truthy tb pk Hwf Hpk), key_name_Some.
  set (id := next_rowid tb). intros [= <-].
  set (stored := new_row tb (sent (meta_of tb) body) id).
  exists id, stored.
  split; [by rewrite lookup_insert_eq|].
  change (appended t tb id stored st)
    with (rewritten t tb (tbl_rows tb ++ [(id, stored)]) st).
  pose proof (serves_rewritten st t tb (tbl_rows tb ++ [(id, stored)]) Hs) as Hs'.
  set (tb' := mkTable _ _) in Hs'.
  assert (primaryKey (meta_of tb') = Some pk) as Hpk'
    by (by rewrite (meta_of_columns tb tb')).
  assert (stored !! pk = Some (VInt id)) as Hstored by (by apply new_row_alias).
  split; [|done].
  rewrite (get_one_some _ t tb' (decimal id) pk Hs' Hpk').
  subst tb'. cbn [tbl_rows]. rewrite cached_rewritten.
  rewrite fmap_app, filter_app, (head_filter_none (has_key pk (decimal id))).
  - simpl. rewrite filter_cons, decide_True; [done|].
    rewrite (has_key_rowid pk stored id id Hstored). by rewrite bool_decide_true.
  - apply Forall_fmap, Forall_forall. intros ir Hin. simpl.
    unfold keyed_by_rowid in Hrows. rewrite Forall_forall in Hrows.
    rewrite (has_key_rowid pk ir.2 ir.1 id (Hrows ir Hin)).
    apply bool_decide_false. pose proof (rowid_below_next tb ir Hin). fold id in H. lia.
Qed.

Lemma post_item_then_get_one_witness :
  exists (n : Z) (stored : row),
    ({[ "id" := VInt 3; "name" := VText "gamma" ]} : row) !! "id" = Some (VInt n) /\
    get_one "items" (decimal n) (post_item "items" gamma items_state).2
    = (mkResponse 200 (Object stored), (post_item "items" gamma items_state).2) /\
    stored !! "id" = Some (VInt n).
Proof.
  refine (post_item_then_get_one items_state "items" items_table "id" gamma
            {[ "id" := VInt 3; "name" := VText "gamma" ]} items_served _ _ _).
  - reflexivity.
  - repeat constructor.
  - vm_compute. reflexivity.
Defined.

(** X19. Update, then fetch, by row id.  On a table whose key is an INTEGER
    PRIMARY KEY, every row holding its rowid under it, and for an id that is
    the decimal form of an integer: when an update is answered 200, a fetch
    of the same id answered 200 before it, and answers 200 after it,
    changing nothing, with a row that holds under the key, and under every
    column the update did not take from the body, what the row fetched
    before held. *)
Theorem put_item_then_get_one (st : state) (t : string) (tb : table) (pk : string)
    (n : Z) (body echoed : row) :
  serves st t tb -> rowid_alias tb = Some pk -> keyed_by_rowid pk tb ->
  let id := decimal n in
  (put_item t id body st).1 = mkResponse 200 (Object echoed) ->
  let st' := (put_item t id body st).2 in
  exists old new : row,
    (get_one t id st).1 = mkResponse 200 (Object old) /\
    get_one t id st' = (mkResponse 200 (Object new), st') /\
    new !! pk = Some (VInt n) /\ old !! pk = Some (VInt n) /\
    (forall k, k ∉ writable_keys (meta_of tb) body -> new !! k = old !! k).
Proof.
  intros Hs Ha Hk id Hresp st'. subst st'.
  pose proof Hs as (Hne & Hdb & Hwf & Hco).
  pose proof (rowid_alias_is_key tb pk Ha) as Hpk.
  destruct (decide (writable_keys (meta_of tb) body = [])) as [Hkeys|Hkeys].
  { exfalso. revert Hresp. unfold put_item.
    rewrite (getTableMetadata_serves _ _ _ Hs), Hpk, (key_truthy tb pk Hwf Hpk), Hkeys.
    done. }
  pose proof (put_item_some st t tb id pk body Hs Hpk Hkeys) as Hput.
  cbv zeta in Hput. rewrite Hput in Hresp. rewrite Hput. cbn [fst snd] in *.
  change (λ r : row, sql_eq (cell pk r) (VText id)) with (has_key pk id) in *.
  assert (Exists (λ r, has_key pk id r = true) (tbl_rows tb).*2) as Hex.
  { apply (filter_some_length (has_key pk id)).
    rewrite filter_snd, length_fmap. unfold has_key. intros H0. by rewrite H0 in Hresp. }
  clear Hresp.
  set (given := sent (meta_of tb) body).
  pose proof (serves_rewritten st t tb (updated_rows (has_key pk id) given (tbl_rows tb)) Hs)
    as Hs'.
  set (tb' := mkTable _ _) in Hs'.
  assert (primaryKey (meta_of tb') = Some pk) as Hpk'
    by (by rewrite (meta_of_columns tb tb')).
  destruct (head_filter_first (has_key pk id) _ Hex)
    as (old & before & after & Hh & Hold & Hrows & _).
  assert (old !! pk = Some (VInt n)) as Holdpk.
  { assert (old ∈ (tbl_rows tb).*2) as Hin
      by (rewrite Hrows; apply elem_of_app; right; left).
    apply list_elem_of_fmap in Hin as (ir & -> & Hin).
    unfold keyed_by_rowid in Hk. rewrite Forall_forall in Hk. specialize (Hk ir Hin).
    unfold id in Hold. rewrite (has_key_rowid pk ir.2 ir.1 n Hk) in Hold.
    apply bool_decide_eq_true in Hold. by rewrite Hk, Hold. }
  assert ((given ∪ old) !! pk = old !! pk) as Hnewpk
    by (apply lookup_union_r; by apply sent_lookup_key).
  exists old, (given ∪ old). split; [|split; [|split; [|split]]].
  - by rewrite (get_one_some st t tb id pk Hs Hpk), Hh.
  - rewrite (get_one_some _ t tb' id pk Hs' Hpk').
    subst tb'. cbn [tbl_rows]. rewrite cached_rewritten.
    rewrite filter_updated_rows by (by apply sent_lookup_key).
    revert Hh. generalize (filter (λ r, has_key pk id r) (tbl_rows tb).*2).
    by intros [|x l] [= ->].
  - by rewrite Hnewpk.
  - done.
  - intros k Hk'. pose proof (sent_lookup (meta_of tb) body k) as Hl.
    rewrite decide_False in Hl by done. fold given in Hl. by apply lookup_union_r.
Qed.

Lemma put_item_then_get_one_witness :
  exists old new : row,
    (get_one "items" (decimal 2) items_state).1 = mkResponse 200 (Object old) /\
    get_one "items" (decimal 2) (put_item "items" (decimal 2) gamma items_state).2
    = (mkResponse 200 (Object new), (put_item "items" (decimal 2) gamma items_state).2) /\
    new !! "id" = Some (VInt 2) /\ old !! "id" = Some (VInt 2) /\
    (forall k, k ∉ writable_keys (meta_of items_table) gamma -> new !! k = old !! k).
Proof.
  refine (put_item_then_get_one items_state "items" items_table "id" 2 gamma
            {[ "id" := VText "2"; "name" := VText "gamma" ]} items_served _ _ _).
  - reflexivity.
  - repeat constructor.
  - vm_compute. reflexivity.
Defined.

(** X20. Names cannot change a statement.  Whatever characters the name
    of the table, of the key and of the columns hold, double quotes
    included, the SQL text each route builds reads back, by the syntax of
    quoted identifiers, as the one statement meant, on exactly those
    names. *)
Theorem statements_read_back (t : string) (meta : metadata) (keys : list string) :
  parse_sql ("PRAGMA table_info(" +:+ quoteIdentifier t +:+ ")") = Some (TableInfo t) /\
  parse_sql (list_sql t meta)
  = Some (Select t CAll
            (if truthy (primaryKey meta) then Some (key_name (primaryKey meta)) else None)) /\
  parse_sql ("SELECT * FROM " +:+ quoteIdentifier t +:+ where_pk_sql meta)
  = Some (Select t (CEq (key_name (primaryKey meta))) None) /\
  parse_sql ("DELETE FROM " +:+ quoteIdentifier t +:+ where_pk_sql meta)
  = Some (Delete t (key_name (primaryKey meta))) /\
  (columns meta <> [] ->
     parse_sql (search_sql t meta) = Some (Select t (CLikeAny (columns meta)) None)) /\
  (keys <> [] ->
     parse_sql (insert_sql t keys) = Some (Insert t keys (length keys)) /\
     parse_sql (update_sql t meta keys)
     = Some (Update t keys (key_name (primaryKey meta)))).
Proof.
  split; [apply parse_pragma_sql|]. split; [apply parse_list_sql|].
  split; [apply parse_where_pk|]. split; [apply parse_delete_sql|].
  split; [apply parse_search_sql|].
  intros Hkeys. split; [by apply parse_insert_sql|by apply parse_update_sql].
Qed.

End route_facts.

(* ===================================================================== *)
(** ** The helpers of the page *)
(* ===================================================================== *)

Section app_facts.
Import JsString Validation ItemMgmtApp.

Lemma Substring_trans (a b c : string) : Substring a b -> Substring b c -> Substring a c.
Proof.
  intros (p1 & q1 & ->) (p2 & q2 & ->). exists (p2 +:+ p1), (q1 +:+ q2).
  by rewrite !app_assoc_s.
Qed.

Lemma includes_email_mail (s : string) :
  includes s "email" = true -> includes s "mail" = true.
Proof.
  rewrite !includes_spec. intros H. apply (Substring_trans _ "email"); [|done].
  by exists "e", EmptyString.
Qed.

(** X24. The inference for the products table departs from the generic one
    exactly on the names that, lower-cased, hold both price and mail: there
    the generic inference says email and the product inference number. *)
Theorem inferProductFieldType_departs (fieldName : string) :
  let both := includes (toLowerCase fieldName) "price" &&
              includes (toLowerCase fieldName) "mail" in
  (inferProductFieldType fieldName <> inferFieldType fieldName <-> both = true) /\
  (if both
   then inferFieldType fieldName = "email" /\ inferProductFieldType fieldName = "number"
   else inferProductFieldType fieldName = inferFieldType fieldName).
Proof.
  unfold inferProductFieldType, inferFieldType.
  pose proof (includes_email_mail (toLowerCase fieldName)) as Hem.
  destruct (includes (toLowerCase fieldName) "price") eqn:Hp.
  - rewrite !orb_true_r. simpl.
    destruct (includes (toLowerCase fieldName) "email"),
             (includes (toLowerCase fieldName) "mail"); simpl;
      try (specialize (Hem eq_refl)); try done; repeat split; try done.
  - simpl. by repeat split.
Qed.

Lemma begins_unsigned_app (s w : string) :
  begins_unsigned s = true -> begins_unsigned (s +:+ w) = true.
Proof.
  unfold begins_unsigned. intros [H|H]%orb_true_iff; apply orb_true_iff.
  - left. apply startsWith_spec in H as [r ->]. apply startsWith_spec.
    exists (r +:+ w). by rewrite app_assoc_s.
  - right. destruct s as [|c r]; [done|]. rewrite app_String.
    destruct (decimal_digit c); [done|]. simpl in *.
    destruct (Ascii.eqb c "."); [|done]. simpl in *.
    destruct r as [|d r']; [done|]. by rewrite app_String.
Qed.

Lemma begins_number_app (s w : string) :
  begins_number s = true -> begins_number (s +:+ w) = true.
Proof.
  unfold begins_number. destruct s as [|c r]; [done|].
  rewrite app_String. unfold split_sign.
  destruct (Ascii.eqb c "+" || Ascii.eqb c "-"); simpl.
  - apply begins_unsigned_app.
  - intros H. apply (begins_unsigned_app (String c r) w) in H. by rewrite app_String in H.
Qed.

Lemma trimEnd_prefix (u : string) : exists w, u = trimEnd u +:+ w.
Proof.
  induction u as [|c r [w IH]]; [by exists EmptyString|].
  simpl. destruct (trimEnd r) as [|c' r'] eqn:Hr.
  - destruct (is_white c).
    + exists (String c r). by rewrite app_empty_l.
    + exists w. rewrite app_empty_l in IH. unfold chr. by rewrite app_String, app_empty_l, <- IH.
  - exists w. by rewrite app_String, <- IH.
Qed.

Lemma trimEnd_nonwhite (c : ascii) (r : string) :
  is_white c = false -> trimEnd (String c r) <> EmptyString.
Proof. intros Hc. simpl. rewrite Hc. by destruct (trimEnd r). Qed.

Lemma begins_number_nonwhite (c : ascii) (r : string) :
  begins_number (String c r) = true -> is_white c = false.
Proof.
  destruct (is_white c) eqn:Hc; [|done].
  destruct c as [[] [] [] [] [] [] [] []]; try discriminate Hc; done.
Qed.

Lemma begins_number_nonblank (s : string) :
  begins_number (trimStart s) = true -> nonblank s = true.
Proof.
  intros H. unfold nonblank, trim.
  destruct s as [|a s']; [done|]. cbn [truthy andb].
  destruct (trimStart (String a s')) as [|c r] eqn:Hu; [done|].
  apply begins_number_nonwhite in H.
  destruct (String.eqb_spec (trimEnd (String c r)) EmptyString) as [E|E]; [|done].
  by apply trimEnd_nonwhite in E.
Qed.

Lemma non_decimal_begins (t : string) :
  non_decimal_literal t = true -> begins_number t = true.
Proof.
  destruct t as [|z [|x r]]; try done. simpl.
  destruct (Ascii.eqb_spec z "0") as [->|]; [|done]. done.
Qed.

Lemma toNumber_begins (s : string) :
  nonblank s = true -> floatIsNaN (toNumber s) = false ->
  begins_number (trimStart s) = true.
Proof.
  intros Hb Hn. unfold nonblank in Hb. apply andb_true_iff in Hb as [_ Hb].
  destruct (trimEnd_prefix (trimStart s)) as [w Hw]. fold (trim s) in Hw.
  rewrite Hw. apply begins_number_app.
  unfold toNumber in Hn.
  destruct (trim s) as [|c r] eqn:Ht; [done|]. cbn [is_empty] in Hn.
  destruct (non_decimal_literal (String c r)) eqn:Hnd; [by apply non_decimal_begins|].
  unfold begins_number.
  destruct (split_sign (String c r)) as [sign rest]. simpl.
  apply read_unsigned_begins. destruct (read_unsigned rest); [eauto|done].
Qed.

(** X25. [isNumeric] holds of a string exactly when the string is not blank
    and [Number] of it is a number: all that the test on [parseFloat] adds
    to the test on [Number] is the refusal of blank strings.  What
    [isNumeric] accepts the number rule of the validation module accepts. *)
Theorem isNumeric_is_nonblank_number (str fieldName : string) :
  (isNumeric str = true <-> nonblank str = true /\ floatIsNaN (toNumber str) = false) /\
  (isNumeric str = true -> validateNumber str fieldName = Return true).
Proof.
  unfold isNumeric. rewrite floatIsNaN_parseFloat, negb_involutive. split.
  - rewrite andb_true_iff, negb_true_iff. split.
    + intros [Hn Hp]. split; [by apply begins_number_nonblank|done].
    + intros [Hb Hn]. split; [done|]. by apply toNumber_begins.
  - intros [_ Hp]%andb_true_iff. unfold validateNumber.
    rewrite floatIsNaN_parseFloat, Hp. by destruct (nonblank str).
Qed.

End app_facts.

(* ===================================================================== *)
(** ** What a request leaves alone *)
(* ===================================================================== *)

Section frame_facts.
Import JsString Sqlite Server.
Local Open Scope Z_scope.

Lemma execute_other (d d' : database) (st : statement) (params : list value)
    (info : run_info) (t : string) :
  execute d st params = SqlOk (d', info) -> t <> statement_table st -> d' !! t = d !! t.
Proof.
  intros Hex Hne.
  destruct st as [|t0|t0 w o|t0 cols n|t0 cols w|t0 w]; simpl in *; try done;
    repeat case_match; simplify_eq; by rewrite lookup_insert_ne.
Qed.

Lemma db_run_other (d d' : database) (sql : string) (st : statement) (params : list value)
    (info : run_info) (t : string) :
  parse_sql sql = Some st -> t <> statement_table st ->
  db_run d sql params = SqlOk (d', info) -> d' !! t = d !! t.
Proof.
  intros Hp Hne Hrun. unfold db_run in Hrun. rewrite Hp in Hrun.
  by apply (execute_other d d' st params info).
Qed.

Lemma handle_other (r : request) (st : state) (t : string) :
  t <> table_of r -> db (handle r st).2 !! t = db st !! t.
Proof.
  intros Hne. destruct (reads r) eqn:Hr; [by rewrite handle_reads_db|].
  destruct r as [t0|t0|t0 id|t0 b|t0 id b|t0 id|t0 q]; try discriminate Hr; simpl in *.
  - rewrite <- (getTableMetadata_db t0 st). unfold post_item.
    destruct (getTableMetadata t0 st) as [[err|m] st1]; [done|].
    destruct (writable_keys m b) as [|k keys] eqn:Hk; [done|].
    destruct (db_run _ _ _) as [e|[d' info]] eqn:Hrun; [done|]. simpl.
    by apply (db_run_other _ _ _ _ _ _ t (parse_insert_sql t0 (k :: keys) ltac:(done)) Hne Hrun).
  - rewrite <- (getTableMetadata_db t0 st). unfold put_item.
    destruct (getTableMetadata t0 st) as [[err|m] st1]; [done|].
    destruct (negb _); [done|].
    destruct (writable_keys m b) as [|k keys] eqn:Hk; [done|].
    destruct (db_run _ _ _) as [e|[d' info]] eqn:Hrun; [done|].
    destruct (changes info =? 0); simpl;
      by apply (db_run_other _ _ _ _ _ _ t (parse_update_sql t0 m (k :: keys) ltac:(done))
                  Hne Hrun).
  - rewrite <- (getTableMetadata_db t0 st). unfold delete_item.
    destruct (getTableMetadata t0 st) as [[err|m] st1]; [done|].
    destruct (negb _); [done|].
    destruct (db_run _ _ _) as [e|[d' info]] eqn:Hrun; [done|].
    destruct (changes info =? 0); simpl;
      by apply (db_run_other _ _ _ _ _ _ t (parse_delete_sql t0 m) Hne Hrun).
Qed.

Lemma rowid_alias_columns (tb tb' : table) :
  tbl_columns tb' = tbl_columns tb -> rowid_alias tb' = rowid_alias tb.
Proof. intros H. unfold rowid_alias. by rewrite H. Qed.

Lemma serves_same_columns (st st' : state) (t : string) (tb tb' : table) :
  serves st t tb -> coherent st' -> db st' !! t = Some tb' ->
  tbl_columns tb' = tbl_columns tb -> serves st' t tb'.
Proof.
  intros (Hne & _ & [Hc Hn] & _) Hco Hdb Hcols.
  split; [done|]. split; [done|]. split; [|done].
  unfold well_formed. by rewrite Hcols.
Qed.

Lemma put_item_none (st : state) (t : string) (tb : table) (id : string) (body : row) :
  serves st t tb -> writable_keys (meta_of tb) body = [] ->
  db (put_item t id body st).2 = db st.
Proof.
  intros Hs Hkeys. unfold put_item.
  rewrite (getTableMetadata_serves _ _ _ Hs), Hkeys. by destruct (negb _).
Qed.

Lemma keyed_by_rowid_handle (r : request) (st : state) (t : string) (tb : table)
    (pk : string) :
  serves st t tb -> rowid_alias tb = Some pk -> keyed_by_rowid pk tb ->
  exists tb', db (handle r st).2 !! t = Some tb' /\
              tbl_columns tb' = tbl_columns tb /\ keyed_by_rowid pk tb'.
Proof.
  intros Hs Ha Hk. pose proof Hs as (Hne & Hdb & Hwf & Hco).
  pose proof (rowid_alias_is_key tb pk Ha) as Hpk.
  destruct (decide (t = table_of r)) as [->|Hd];
    [|exists tb; by rewrite handle_other].
  destruct (reads r) eqn:Hr; [exists tb; by rewrite handle_reads_db|].
  destruct r as [t0|t0|t0 id|t0 b|t0 id b|t0 id|t0 q]; try discriminate Hr;
    cbn [table_of handle] in *.
  - destruct (writable_keys (meta_of tb) b) as [|k keys] eqn:Hkeys.
    + rewrite (post_item_none st t0 tb b Hs Hkeys). by exists tb.
    + rewrite (post_item_some st t0 tb b Hs) by (by rewrite Hkeys).
      cbn [snd appended db]. rewrite lookup_insert_eq. eexists. split; [done|].
      split; [done|]. unfold keyed_by_rowid. cbn [tbl_rows].
      apply Forall_app. split; [done|]. constructor; [|done].
      by apply new_row_alias.
  - destruct (writable_keys (meta_of tb) b) as [|k keys] eqn:Hkeys.
    + rewrite (put_item_none st t0 tb id b Hs Hkeys). by exists tb.
    + rewrite (put_item_some st t0 tb id pk b Hs Hpk) by (by rewrite Hkeys).
      cbn [snd rewritten db]. rewrite lookup_insert_eq. eexists. split; [done|].
      split; [done|]. unfold keyed_by_rowid, updated_rows. cbn [tbl_rows].
      apply Forall_forall. intros ir' (ir & -> & Hin)%list_elem_of_fmap.
      unfold keyed_by_rowid in Hk. rewrite Forall_forall in Hk. specialize (Hk ir Hin).
      destruct (sql_eq _ _); [|done]. cbn [fst snd].
      rewrite lookup_union_r; [done|]. by apply sent_lookup_key.
  - rewrite (delete_item_some st t0 tb id pk Hs Hpk).
    cbn [snd rewritten db]. rewrite lookup_insert_eq. eexists. split; [done|].
    split; [done|]. unfold keyed_by_rowid. cbn [tbl_rows].
    apply Forall_forall. intros ir [_ Hin]%list_elem_of_filter.
    unfold keyed_by_rowid in Hk. rewrite Forall_forall in Hk. by apply Hk.
Qed.

(** X27. On a table whose key is an INTEGER PRIMARY KEY, the requests keep
    every row holding its rowid under the key: if the rows do at the start,
    then after any sequence of requests the table is still served, with the
    columns it had, and its rows still do. *)
Theorem serve_keeps_rowid_keys (rs : list request) (st : state) (t : string) (tb : table)
    (pk : string) :
  serves st t tb -> rowid_alias tb = Some pk -> keyed_by_rowid pk tb ->
  exists tb', serves (serve rs st) t tb' /\
              tbl_columns tb' = tbl_columns tb /\ keyed_by_rowid pk tb'.
Proof.
  revert st tb. induction rs as [|r rs IH]; intros st tb Hs Ha Hk; [by exists tb|].
  destruct (keyed_by_rowid_handle r st t tb pk Hs Ha Hk) as (tb1 & Hdb1 & Hcols1 & Hk1).
  pose proof Hs as (_ & _ & _ & Hco).
  assert (serves (handle r st).2 t tb1) as Hs1.
  { apply (serves_same_columns st _ t tb tb1); try done. by apply handle_coherent. }
  destruct (IH (handle r st).2 tb1 Hs1) as (tb' & Hs' & Hcols' & Hk'); [|done|].
  { by rewrite (rowid_alias_columns tb tb1). }
  exists tb'. split; [done|]. split; [congruence|done].
Qed.

Lemma serve_keeps_rowid_keys_witness :
  exists tb', serves (serve [PostItem "items" gamma; DeleteItem "items" "1"] items_state)
                     "items" tb' /\
              tbl_columns tb' = tbl_columns items_table /\ keyed_by_rowid "id" tb'.
Proof.
  refine (serve_keeps_rowid_keys _ items_state "items" items_table "id" items_served _ _).
  - reflexivity.
  - repeat constructor.
Defined.

End frame_facts.
